(** * linttest: the conformance harness of go-critic checkers

    A shallow embedding of [framework/linttest/linttest.go] and the
    properties of its matching engine, directive stripper, package
    selection, sanity phase and fixture runner.

    Conventions of the embedding:
    - a Go [int] or [token.Pos] is a [Z]; no arithmetic is done on them here;
    - a Go pointer into a slice ([&ws[line][i]]) is the pair of the map key
      and the index; a pointer to a heap object is a store location;
    - [t.Errorf] appends to the log of the running (sub)test and returns;
      [t.Fatalf] appends and stops the (sub)test;
    - collaborators that live outside the file (the checkers, [packages.Load],
      [pkgload.VisitUnits], the file system, [path/filepath]) are fields of
      an environment record. *)

From stdpp Require Import gmap strings list fin_maps.

Local Open Scope Z_scope.

(** ** go/token *)
Module token.
Definition Pos : Type := Z.

Record Position := mkPosition { Filename : string; Line : Z; Column : Z }.

(** A [*token.FileSet] is used through its [Position] method only. *)
Definition FileSet : Type := Pos → Position.
End token.

(** ** testing *)
Module testing.
(** One constructor per message format of the harness. *)
Inductive failure :=
| UnexpectedPanic                                          (* "unexpected panic: %v\n%s" *)
| MultipleMatches (file : string) (line : Z) (text : string) (* "%s:%d: multiple matches for %s" *)
| UnexpectedWarn (file : string) (line : Z) (text : string)  (* "%s:%d: unexpected warn: %s" *)
| Unmatched (file : string) (line : Z) (text : string)       (* "%s:%d: unmatched `%s`" *)
| ReadFile (file : string)                                 (* "read file %q: %v" *)
| NewWarningsError (file : string)                         (* t.Fatal(err) after newWarnings *)
| LoadPackage (pattern : string).                          (* "load package: %v" *)

(** How a test function stops: it returns, it is stopped by [t.Fatalf]
    ([runtime.Goexit]), or it panics. *)
Inductive ctl (A : Type) :=
| Ret (a : A)
| FailNow
| Panic.
Arguments Ret {A} a.
Arguments FailNow {A}.
Arguments Panic {A}.

Record T (A : Type) := mkT { status : ctl A; log : list failure }.
Arguments mkT {A} status log.
Arguments status {A} t.
Arguments log {A} t.

Definition ret {A} (a : A) : T A := mkT (Ret a) [].

Definition bind {A B} (m : T A) (k : A → T B) : T B :=
  match status m with
  | Ret a => let r := k a in mkT (status r) (log m ++ log r)
  | FailNow => mkT FailNow (log m)
  | Panic => mkT Panic (log m)
  end.

Definition Errorf (f : failure) : T unit := mkT (Ret tt) [f].
Definition Fatalf {A} (f : failure) : T A := mkT FailNow [f].
Definition panic {A} : T A := mkT Panic [].

(** [for _, x := range xs { body x }] *)
Fixpoint forEach {A} (body : A → T unit) (xs : list A) : T unit :=
  match xs with
  | [] => ret tt
  | x :: rest => bind (body x) (λ _, forEach body rest)
  end.
End testing.

#[global] Instance T_ret : MRet testing.T := @testing.ret.
#[global] Instance T_bind : MBind testing.T := λ A B k m, testing.bind m k.

#[global] Instance failure_eq_dec : EqDecision testing.failure.
Proof. solve_decision. Defined.

(** The line a failure message is attributed to. *)
Definition failureLine (f : testing.failure) : option Z :=
  match f with
  | testing.MultipleMatches _ line _
  | testing.UnexpectedWarn _ line _
  | testing.Unmatched _ line _ => Some line
  | _ => None
  end.

Definition onLine (L : Z) (f : testing.failure) : Prop := failureLine f = Some L.

#[global] Instance onLine_dec L f : Decision (onLine L f).
Proof. unfold onLine. apply _. Defined.


(** ** go/ast *)
Module ast.
(** Comments are heap objects shared between [File.Comments] and the
    [Doc] fields of declarations: a [*ast.Comment] is a location. *)
Definition loc : Type := positive.

Record Comment := mkComment { Slash : token.Pos; Text : string }.

Record CommentGroup := mkCommentGroup { List : list loc }.

(** [Decl] stands for the declarations of the file, which the harness
    never inspects; [heap] holds the comment objects of the file. *)
Record File (Decl : Type) := mkFile {
  Doc : option CommentGroup;
  Package : token.Pos;
  Name : string;
  Decls : list Decl;
  Comments : list CommentGroup;
  heap : gmap loc Comment
}.
Arguments mkFile {Decl}.
Arguments Doc {Decl} f.
Arguments Package {Decl} f.
Arguments Name {Decl} f.
Arguments Decls {Decl} f.
Arguments Comments {Decl} f.
Arguments heap {Decl} f.

(** The [Pos] methods of [File] and [Comment] in go/ast. *)
Definition File_Pos {Decl} (f : File Decl) : token.Pos := Package f.
Definition Comment_Pos (c : Comment) : token.Pos := Slash c.
End ast.

(** ** framework/linter *)
Module linter.
Record CheckerInfo := mkCheckerInfo { Name : string }.

Record Warning := mkWarning { Node : token.Pos; Text : string }.

(** What [c.Check(f)] does: it returns its warnings or it panics. *)
Inductive result :=
| Returns (warns : list Warning)
| Panics.
End linter.

#[global] Instance CheckerInfo_eq_dec : EqDecision linter.CheckerInfo.
Proof. solve_decision. Defined.

(** ** The expectation index (warnings.go) *)

(** [type warnings map[int][]string], as [checkUnmatched] ranges over it. *)
Abbreviation warnings := (gmap Z (list string)).

(** A [*string] pointing at [ws[line][i]]. *)
Abbreviation ptr := (Z * nat)%type.

(** Reading through the pointer [w]. *)
Definition deref (ws : warnings) (w : ptr) : string :=
  default "" (ws !! w.1 ≫= (.!! w.2)).

Fixpoint indexOf (text : string) (sl : list string) : option nat :=
  match sl with
  | [] => None
  | w :: rest => if decide (text = w) then Some 0%nat else S <$> indexOf text rest
  end.

(** Modelled from the spec: the method [warnings.find], whose file
    (warnings.go) is not part of the sources at hand. The harness calls it as
    [ws.find(line, warn.Text)] and gets a [*string] or nil. The spec's match
    engine looks up the expectation list of the line and scans it for the
    first expectation whose text equals the diagnostic's text exactly. The
    call passes neither the set of consumed expectations nor anything else
    the scan could consult, and the harness tests by itself whether the
    result was consumed before (the duplicate-match report), so the scan
    does not skip consumed expectations. *)
Definition find (ws : warnings) (line : Z) (text : string) : option ptr :=
  (λ i, (line, i)) <$> indexOf text (default [] (ws !! line)).

(** ** checkFile: the matching loop *)

(** Body of [for _, warn := range c.Check(f)] in [checkFile], for any
    lookup function [fnd] in the place of [ws.find]: the new [matched] set
    and what was logged. *)
Definition checkWarnWith (fnd : warnings → Z → string → option ptr)
    (fset : token.FileSet) (testFilename : string) (ws : warnings)
    (matched : gset ptr) (warn : linter.Warning) : gset ptr * list testing.failure :=
  let line := token.Line (fset (linter.Node warn)) in
  match fnd ws line (linter.Text warn) with
  | Some w =>
      (matched ∪ {[w]},
       if decide (w ∈ matched)
       then [testing.MultipleMatches testFilename line (deref ws w)]
       else [])
  | None => (matched, [testing.UnexpectedWarn testFilename line (linter.Text warn)])
  end.

Fixpoint checkWarnsWith (fnd : warnings → Z → string → option ptr)
    (fset : token.FileSet) (testFilename : string) (ws : warnings)
    (matched : gset ptr) (warns : list linter.Warning) : gset ptr * list testing.failure :=
  match warns with
  | [] => (matched, [])
  | warn :: rest =>
      let '(m1, l1) := checkWarnWith fnd fset testFilename ws matched warn in
      let '(m2, l2) := checkWarnsWith fnd fset testFilename ws m1 rest in
      (m2, l1 ++ l2)
  end.

Definition checkWarn := checkWarnWith find.
Definition checkWarns := checkWarnsWith find.

(** Inner loop of [checkUnmatched]: [for i, w := range sl], from index [i]. *)
Fixpoint unmatchedFrom (matched : gset ptr) (testFilename : string) (line : Z)
    (i : nat) (sl : list string) : list testing.failure :=
  match sl with
  | [] => []
  | w :: rest =>
      (if decide ((line, i) ∈ matched) then [] else [testing.Unmatched testFilename line w])
      ++ unmatchedFrom matched testFilename line (S i) rest
  end.

(** [checkUnmatched]. Go leaves the order of [range ws] unspecified; the
    model visits the lines in the order of [map_to_list], and the theorems
    below are stated per line, or by counting, so that they hold for any
    order. *)
Definition checkUnmatched (ws : warnings) (matched : gset ptr) (testFilename : string)
    : list testing.failure :=
  flat_map (λ e, unmatchedFrom matched testFilename e.1 0 e.2) (map_to_list ws).

(** The part of [checkFile] after the expectations are parsed and the
    checker has returned [warns]: lines 109-125. *)
Definition matchFileWith (fnd : warnings → Z → string → option ptr)
    (fset : token.FileSet) (testFilename : string) (ws : warnings)
    (warns : list linter.Warning) : list testing.failure :=
  let '(matched, l) := checkWarnsWith fnd fset testFilename ws ∅ warns in
  l ++ checkUnmatched ws matched testFilename.

Definition matchFile := matchFileWith find.

(** ** stripDirectives *)

(** What the loop body does to one comment object:
    [if strings.HasPrefix(c.Text, "/// ") { c.Text = "//" }]. *)
Definition stripComment (c : ast.Comment) : ast.Comment :=
  if String.prefix "/// " (ast.Text c) then ast.mkComment (ast.Slash c) "//" else c.

(** [for _, c := range cg.List]: the comment behind each pointer is
    updated in place. The parser stores no nil pointer in these slices. *)
Definition stripGroup (h : gmap ast.loc ast.Comment) (cg : ast.CommentGroup)
    : gmap ast.loc ast.Comment :=
  foldl (λ h c, alter stripComment c h) h (ast.List cg).

Definition stripDirectives {Decl} (f : ast.File Decl) : ast.File Decl :=
  ast.mkFile (ast.Doc f) (ast.Package f) (ast.Name f) (ast.Decls f) (ast.Comments f)
    (foldl stripGroup (ast.heap f) (ast.Comments f)).

(** A tree none of whose listed comments carries the directive prefix. *)
Definition directiveFree {Decl} (f : ast.File Decl) : Prop :=
  ∀ cg c x, cg ∈ ast.Comments f → c ∈ ast.List cg → ast.heap f !! c = Some x →
    String.prefix "/// " (ast.Text x) = false.

(** The comments a file lists, group after group. *)
Definition commentLocs {Decl} (f : ast.File Decl) : list ast.loc :=
  mjoin (ast.List <$> ast.Comments f).

(** ** golang.org/x/tools/go/packages and go-toolsmith/pkgload *)
Module packages.
Record Package (Decl : Type) := mkPackage { ID : string; Syntax : list (ast.File Decl) }.
Arguments mkPackage {Decl}.
Arguments ID {Decl} p.
Arguments Syntax {Decl} p.
End packages.

Module pkgload.
(** Of the fields of a unit only [Base] is never nil. *)
Record Unit (Decl : Type) := mkUnit {
  Base : packages.Package Decl;
  Test : option (packages.Package Decl);
  ExternalTest : option (packages.Package Decl);
  TestBinary : option (packages.Package Decl)
}.
Arguments mkUnit {Decl}.
Arguments Base {Decl} u.
Arguments Test {Decl} u.
Arguments ExternalTest {Decl} u.
Arguments TestBinary {Decl} u.
End pkgload.

(** ** The collaborators of the harness *)
Record Env (Decl : Type) := mkEnv {
  (** [linter.GetCheckersInfo()] *)
  GetCheckersInfo : list linter.CheckerInfo;
  (** [packages.Load(cfg, patterns...)]: an error, or the file set it
      filled and the packages. *)
  Load : list string → option (token.FileSet * list (packages.Package Decl));
  (** [pkgload.VisitUnits]: the units it groups the packages into, in the
      order it visits them. *)
  VisitUnits : list (packages.Package Decl) → list (pkgload.Unit Decl);
  (** [linter.NewChecker(ctx, info)] followed by [ctx.SetFileInfo(name, f)]
      and [c.Check(f)]: the answer of the checker for a context and a file. *)
  Check : linter.CheckerInfo → token.FileSet → packages.Package Decl → string →
          ast.File Decl → linter.result;
  (** [os.Open]: the content of the file, or an error. *)
  Open : string → option string;
  (** [newWarnings(rc)]: the expectation index, or an error. *)
  newWarnings : string → option warnings;
  (** [filepath.Base] and [filepath.Join] *)
  filepath_Base : string → string;
  filepath_Join : list string → string
}.
Arguments mkEnv {Decl}.
Arguments GetCheckersInfo {Decl} _.
Arguments Load {Decl} _.
Arguments VisitUnits {Decl} _.
Arguments Check {Decl} _.
Arguments Open {Decl} _.
Arguments newWarnings {Decl} _.
Arguments filepath_Base {Decl} _.
Arguments filepath_Join {Decl} _.

(** ** loadPackages and newPackages *)

(** The callback given to [pkgload.VisitUnits]. *)
Definition visitUnit {Decl} (result : list (packages.Package Decl)) (u : pkgload.Unit Decl)
    : list (packages.Package Decl) :=
  let result :=
    match pkgload.ExternalTest u with
    | Some x => result ++ [x]
    | None => result
    end in
  match pkgload.Test u with
  | Some t => result ++ [t]
  | None => result ++ [pkgload.Base u]
  end.

(** [result] starts as the empty slice [pkgs[:0]]; [VisitUnits] has grouped
    all of [pkgs] before it calls back, so that sharing the backing array
    is not observable. *)
Definition loadPackages {Decl} (E : Env Decl) (patterns : list string)
    : option (token.FileSet * list (packages.Package Decl)) :=
  match Load E patterns with
  | None => None
  | Some (fset, pkgs) => Some (fset, foldl visitUnit [] (VisitUnits E pkgs))
  end.

Definition newPackages {Decl} (E : Env Decl) (pattern : string)
    : testing.T (token.FileSet * list (packages.Package Decl)) :=
  match loadPackages E [pattern] with
  | None => testing.Fatalf (testing.LoadPackage pattern)
  | Some r => testing.ret r
  end.

Definition getFilename {Decl} (E : Env Decl) (fset : token.FileSet) (f : ast.File Decl) : string :=
  filepath_Base E (token.Filename (fset (ast.File_Pos f))).

(** ** saneCheckersList *)

(** What the deferred closures of a sanity subtest read and write: the
    captured [saneList], the log of [t], and whether the goroutine is
    panicking. *)
Record sanityState := mkSanityState {
  saneList : list linter.CheckerInfo;
  tlog : list testing.failure;
  panicking : bool
}.

(** [recover()]: it returns the panic value, if any, and stops the panic. *)
Definition recover (s : sanityState) : bool * sanityState :=
  (panicking s, mkSanityState (saneList s) (tlog s) false).

(** The closure deferred at each iteration of [for _, pkg := range pkgs]. *)
Definition sanityDeferred (info : linter.CheckerInfo) (s : sanityState) : sanityState :=
  let '(r, s) := recover s in
  if r
  then mkSanityState (saneList s) (tlog s ++ [testing.UnexpectedPanic]) (panicking s)
  else mkSanityState (saneList s ++ [info]) (tlog s) (panicking s).

(** Deferred calls run last-in first-out: the head of the stack is the
    closure deferred last. *)
Definition runDeferred (defers : list (sanityState → sanityState)) (s : sanityState)
    : sanityState :=
  foldl (λ s d, d s) s defers.

(** [for _, f := range pkg.Syntax { ...; _ = c.Check(f) }]: [true] when a
    call panics. *)
Fixpoint sanityFiles {Decl} (E : Env Decl) (info : linter.CheckerInfo) (fset : token.FileSet)
    (pkg : packages.Package Decl) (files : list (ast.File Decl)) : bool :=
  match files with
  | [] => false
  | f :: rest =>
      match Check E info fset pkg (getFilename E fset f) f with
      | linter.Returns _ => sanityFiles E info fset pkg rest
      | linter.Panics => true
      end
  end.

(** [for _, pkg := range pkgs]: each iteration defers one closure and runs
    the checker over the files of the unit. A panic unwinds the function:
    the deferred closures run while the goroutine is panicking. Without a
    panic they run when the function returns. *)
Fixpoint sanityUnits {Decl} (E : Env Decl) (info : linter.CheckerInfo) (fset : token.FileSet)
    (pkgs : list (packages.Package Decl)) (defers : list (sanityState → sanityState))
    (s : sanityState) : sanityState :=
  match pkgs with
  | [] => runDeferred defers s
  | pkg :: rest =>
      let defers := sanityDeferred info :: defers in
      if sanityFiles E info fset pkg (packages.Syntax pkg)
      then runDeferred defers (mkSanityState (saneList s) (tlog s) true)
      else sanityUnits E info fset rest defers s
  end.

Definition sanityPkgPath : string :=
  "github.com/go-critic/go-critic/framework/linttest/testdata/sanity".

(** The function given to [t.Run(info.Name+"/sanity", ...)]: the new value
    of [saneList] and the outcome of the subtest. *)
Definition sanitySubtest {Decl} (E : Env Decl) (info : linter.CheckerInfo)
    (sane : list linter.CheckerInfo) : list linter.CheckerInfo * testing.T unit :=
  let r := newPackages E sanityPkgPath in
  match testing.status r with
  | testing.Ret (fset, pkgs) =>
      let s := sanityUnits E info fset pkgs [] (mkSanityState sane (testing.log r) false) in
      (saneList s, testing.mkT (if panicking s then testing.Panic else testing.Ret tt) (tlog s))
  | testing.FailNow => (sane, testing.mkT testing.FailNow (testing.log r))
  | testing.Panic => (sane, testing.mkT testing.Panic (testing.log r))
  end.

(** [for _, info := range linter.GetCheckersInfo()]: the sane list and the
    outcome of each subtest. *)
Definition sanityPhase {Decl} (E : Env Decl)
    : list linter.CheckerInfo * list (linter.CheckerInfo * testing.T unit) :=
  foldl (λ acc info,
           let '(sane, r) := sanitySubtest E info acc.1 in
           (sane, acc.2 ++ [(info, r)]))
        ([], []) (GetCheckersInfo E).

Definition saneCheckersList {Decl} (E : Env Decl) : list linter.CheckerInfo :=
  (sanityPhase E).1.

(** ** checkFile and TestCheckers *)

Definition checkFile {Decl} (E : Env Decl) (info : linter.CheckerInfo) (fset : token.FileSet)
    (pkg : packages.Package Decl) (f : ast.File Decl) : testing.T unit :=
  let filename := getFilename E fset f in
  let testFilename := filepath_Join E ["testdata"; linter.Name info; filename] in
  rc ← match Open E testFilename with
       | Some rc => mret rc
       | None => testing.Fatalf (testing.ReadFile testFilename)
       end;
  ws ← match newWarnings E rc with
       | Some ws => mret ws
       | None => testing.Fatalf (testing.NewWarningsError testFilename)
       end;
  let f := stripDirectives f in
  match Check E info fset pkg filename f with
  | linter.Returns warns => testing.mkT (testing.Ret tt) (matchFile fset testFilename ws warns)
  | linter.Panics => testing.panic
  end.

(** The function given to [t.Run(info.Name, ...)] in [TestCheckers]. *)
Definition fixtureTest {Decl} (E : Env Decl) (info : linter.CheckerInfo) : testing.T unit :=
  let pkgPath := "./testdata/" +:+ linter.Name info in
  r ← newPackages E pkgPath;
  testing.forEach
    (λ pkg, testing.forEach (λ f, checkFile E info r.1 pkg f) (packages.Syntax pkg))
    r.2.

(** Subtests run one after the other; a panic that nothing recovers ends
    the test binary, so the subtests after it do not run. *)
Fixpoint runSubtests {A} (tests : list (A * testing.T unit)) : list (A * testing.T unit) :=
  match tests with
  | [] => []
  | (a, r) :: rest =>
      (a, r) :: match testing.status r with
                | testing.Panic => []
                | _ => runSubtests rest
                end
  end.

Definition TestCheckers {Decl} (E : Env Decl) : list (linter.CheckerInfo * testing.T unit) :=
  runSubtests (map (λ info, (info, fixtureTest E info)) (saneCheckersList E)).

(** ** Vocabulary of the statements *)

(** The line of a diagnostic: [ctx.FileSet.Position(warn.Node.Pos()).Line]. *)
Definition warnLine (fset : token.FileSet) (warn : linter.Warning) : Z :=
  token.Line (fset (linter.Node warn)).

#[global] Instance warnLine_dec fset (L : Z) warn : Decision (warnLine fset warn = L).
Proof. apply _. Defined.

(** Two [matched] sets that hold the same pointers into line [L]. *)
Definition agreeOn (L : Z) (m1 m2 : gset ptr) : Prop :=
  ∀ i : nat, (L, i) ∈ m1 ↔ (L, i) ∈ m2.


(** The index of the first unit of [pkgs] on which the checker panics. *)
Fixpoint firstPanic {Decl} (E : Env Decl) (info : linter.CheckerInfo) (fset : token.FileSet)
    (pkgs : list (packages.Package Decl)) : option nat :=
  match pkgs with
  | [] => None
  | pkg :: rest =>
      if sanityFiles E info fset pkg (packages.Syntax pkg) then Some 0%nat
      else S <$> firstPanic E info fset rest
  end.

(** The environment [E] with other checkers. *)
Definition withCheck {Decl} (E : Env Decl)
    (chk : linter.CheckerInfo → token.FileSet → packages.Package Decl → string →
           ast.File Decl → linter.result) : Env Decl :=
  mkEnv (GetCheckersInfo E) (Load E) (VisitUnits E) chk (Open E) (newWarnings E)
        (filepath_Base E) (filepath_Join E).

(** The name of the fixture file that [checkFile] opens for [f]. *)
Definition testFilenameOf {Decl} (E : Env Decl) (info : linter.CheckerInfo)
    (fset : token.FileSet) (f : ast.File Decl) : string :=
  filepath_Join E ["testdata"; linter.Name info; getFilename E fset f].

(** The files of the units, each with its unit, in the order of the loops
    of [TestCheckers]. *)
Definition unitFiles {Decl} (pkgs : list (packages.Package Decl))
    : list (packages.Package Decl * ast.File Decl) :=
  pkg ← pkgs; pair pkg <$> packages.Syntax pkg.

(** ** Fixtures of the scenarios *)

(** A file set that puts position [p] on line [p] of a.go. *)
Definition lineFset : token.FileSet := λ p, token.mkPosition "a.go" p 1.

Definition nilDeref : string := "possible nil dereference".
Definition unusedVar : string := "unused variable".
Definition fixtureName : string := "testdata/nilDeref/a.go".

(** One annotation on line 5. *)
Definition scenarioA_ws : warnings := {[ 5 := [nilDeref] ]}.

(** Two annotations with the same text on line 5. *)
Definition scenarioD_ws : warnings := {[ 5 := [nilDeref; nilDeref] ]}.

Definition warn5 : linter.Warning := linter.mkWarning 5 nilDeref.
Definition warn9 : linter.Warning := linter.mkWarning 9 unusedVar.

(** A sanity fixture with an external test: the loader gives the
    external-test package and then the base package. *)
Definition plainFile (pos : token.Pos) : ast.File unit :=
  ast.mkFile None pos "sanity" [] [] ∅.

Definition sanityBase : packages.Package unit :=
  packages.mkPackage "sanity" [plainFile 1].

Definition sanityXTest : packages.Package unit :=
  packages.mkPackage "sanity_test [sanity.test]" [plainFile 2].

Definition sanityUnit : pkgload.Unit unit :=
  pkgload.mkUnit sanityBase None (Some sanityXTest) None.

Definition flaky : linter.CheckerInfo := linter.mkCheckerInfo "flaky".

(** A checker that panics on the files of the base package, in an
    environment where every pattern loads the sanity fixture. *)
Definition flakyCheck (info : linter.CheckerInfo) (fset : token.FileSet)
    (pkg : packages.Package unit) (name : string) (f : ast.File unit) : linter.result :=
  if String.eqb (packages.ID pkg) "sanity" then linter.Panics else linter.Returns [].

Definition flakyEnv : Env unit :=
  mkEnv [flaky]
        (λ _, Some (lineFset, [sanityBase; sanityXTest]))
        (λ _, [sanityUnit])
        flakyCheck
        (λ _, Some "") (λ _, Some ∅)
        (λ path, path) (String.concat "/").

(** The same environment with a checker that never panics. *)
Definition calmEnv : Env unit := withCheck flakyEnv (λ _ _ _ _ _, linter.Returns []).

(** A fixture whose only comment is an annotation with text [text]. *)
Definition annotated (text : string) : ast.File unit :=
  ast.mkFile None 1 "p" [] [ast.mkCommentGroup [1%positive]]
    {[ 1%positive := ast.mkComment 7 text ]}.

(** A checker that reports the text of an annotation when it sees one. *)
Definition peekCheck (info : linter.CheckerInfo) (fset : token.FileSet)
    (pkg : packages.Package unit) (name : string) (f : ast.File unit) : linter.result :=
  match ast.heap f !! 1%positive with
  | Some c =>
      if String.prefix "/// " (ast.Text c)
      then linter.Returns [linter.mkWarning (ast.Slash c) (ast.Text c)]
      else linter.Returns []
  | None => linter.Returns []
  end.

Definition peekEnv : Env unit := withCheck flakyEnv peekCheck.

(** A checker that reports an unused variable on line 9 of every file, in
    an environment where every fixture file expects a nil dereference on
    line 5. *)
Definition noisyEnv : Env unit :=
  mkEnv [flaky]
        (λ _, Some (lineFset, [sanityBase; sanityXTest]))
        (λ _, [sanityUnit])
        (λ _ _ _ _ _, linter.Returns [warn9])
        (λ _, Some "") (λ _, Some scenarioA_ws)
        (λ path, path) (String.concat "/").


(** ** Vocabulary of the further properties *)

(** What the harness relies on when it reads through the result of the
    lookup: a pointer returned for a line and a text points into the slice
    of that line, at an expectation with that text. *)
Definition lookupSound (fnd : warnings → Z → string → option ptr) : Prop :=
  ∀ ws line text w, fnd ws line text = Some w →
    w.1 = line ∧ ws !! line ≫= (.!! w.2) = Some text.

(** The lookup for a line reads the slice of that line only. *)
Definition lookupLocal (fnd : warnings → Z → string → option ptr) : Prop :=
  ∀ (ws1 ws2 : warnings) line text,
    ws1 !! line = ws2 !! line → fnd ws1 line text = fnd ws2 line text.

(** The expectations that the diagnostics find, in the order of the
    diagnostics. *)
Definition found (fnd : warnings → Z → string → option ptr) (fset : token.FileSet)
    (ws : warnings) (warns : list linter.Warning) : list ptr :=
  omap (λ d, fnd ws (warnLine fset d) (linter.Text d)) warns.

(** The subtests that [TestCheckers] starts one after the other. *)
Definition scheduled {Decl} (E : Env Decl) : list (linter.CheckerInfo * testing.T unit) :=
  map (λ info, (info, fixtureTest E info)) (saneCheckersList E).

(** A file set with two files: position 1 is in a.go, the others in b.go. *)
Definition twoFileFset : token.FileSet :=
  λ p, token.mkPosition (if decide (p = 1) then "a.go" else "b.go") p 1.

(** A disk on which no fixture file exists. *)
Definition emptyDiskEnv : Env unit :=
  mkEnv [flaky]
        (λ _, Some (twoFileFset, [sanityBase; sanityXTest]))
        (λ _, [sanityUnit])
        (λ _ _ _ _ _, linter.Returns [warn9])
        (λ _, None) (λ _, Some scenarioA_ws)
        (λ path, path) (String.concat "/").

(** A second checker, which never panics, beside [flaky]. *)
Definition steady : linter.CheckerInfo := linter.mkCheckerInfo "steady".

Definition twoCheckersEnv : Env unit :=
  mkEnv [flaky; steady]
        (λ _, Some (lineFset, [sanityBase; sanityXTest]))
        (λ _, [sanityUnit])
        (λ info fset pkg name f,
           if String.eqb (linter.Name info) "flaky" then flakyCheck info fset pkg name f
           else linter.Returns [])
        (λ _, Some "") (λ _, Some ∅)
        (λ path, path) (String.concat "/").

(** An environment in which no package loads. *)
Definition brokenEnv : Env unit :=
  mkEnv [flaky; steady]
        (λ _, None)
        (λ _, [sanityUnit])
        (λ _ _ _ _ _, linter.Returns [])
        (λ _, Some "") (λ _, Some ∅)
        (λ path, path) (String.concat "/").









(** * Properties *)

(** ** The lookup of an expectation *)

Lemma indexOf_Some text sl i :
  indexOf text sl = Some i → sl !! i = Some text.
Proof.
  revert i. induction sl as [|w rest IH]; intros i; simpl; [done|].
  destruct (decide (text = w)) as [->|Hne].
  - by intros [= <-].
  - destruct (indexOf text rest) as [j|]; simpl; [|done].
    intros [= <-]. simpl. by apply IH.
Qed.

Lemma indexOf_None text sl :
  indexOf text sl = None ↔ text ∉ sl.
Proof.
  induction sl as [|w rest IH]; simpl.
  - split; [intros _; apply not_elem_of_nil | done].
  - rewrite not_elem_of_cons. destruct (decide (text = w)) as [->|Hne].
    + split; [done | intros [? _]; done].
    + destruct (indexOf text rest) as [j|] eqn:Hj; simpl.
      * split; [done|]. intros [_ Hn]. by apply IH in Hn.
      * split; [|done]. intros _. split; [done|]. by apply IH.
Qed.


Lemma find_line ws line text w :
  find ws line text = Some w → w.1 = line.
Proof.
  unfold find. destruct (indexOf _ _); simpl; [|done]. by intros [= <-].
Qed.


Lemma find_None ws line text :
  find ws line text = None ↔ ∀ sl, ws !! line = Some sl → text ∉ sl.
Proof.
  unfold find. rewrite fmap_None, indexOf_None.
  destruct (ws !! line) as [sl|]; simpl.
  - split; [by intros ? ? [= <-] | eauto].
  - split; [done | intros _; apply not_elem_of_nil].
Qed.

(** ** The matching loop *)

Lemma checkWarnsWith_app fnd fset file ws m pre post :
  checkWarnsWith fnd fset file ws m (pre ++ post) =
  let '(m1, l1) := checkWarnsWith fnd fset file ws m pre in
  let '(m2, l2) := checkWarnsWith fnd fset file ws m1 post in
  (m2, l1 ++ l2).
Proof.
  revert m. induction pre as [|d pre IH]; intros m; simpl.
  - by destruct (checkWarnsWith fnd fset file ws m post).
  - destruct (checkWarnWith fnd fset file ws m d) as [m0 l0].
    rewrite IH.
    destruct (checkWarnsWith fnd fset file ws m0 pre) as [m1 l1].
    destruct (checkWarnsWith fnd fset file ws m1 post) as [m2 l2].
    by rewrite app_assoc.
Qed.

(** Whatever the lookup function, as long as its answer depends on the
    index, the line and the text only: of two equal diagnostics the second
    one is reported. *)
Lemma checkWarnsWith_twice fnd fset file ws m d :
  (checkWarnsWith fnd fset file ws m [d; d]).2 ≠ [].
Proof.
  simpl. unfold checkWarnWith.
  destruct (fnd ws _ _) as [w|]; simpl; [|done].
  destruct (decide (w ∈ m ∪ {[w]})) as [_|Hn]; [|set_solver].
  by destruct (decide (w ∈ m)).
Qed.





(** ** checkUnmatched *)

Lemma unmatchedFrom_onLine m file line sl : ∀ i,
  Forall (onLine line) (unmatchedFrom m file line i sl).
Proof.
  induction sl as [|w rest IH]; intros i; simpl; [constructor|].
  destruct (decide ((line, i) ∈ m)); simpl; [apply IH|].
  constructor; [done | apply IH].
Qed.

Lemma unmatchedFrom_agree m1 m2 file L sl : ∀ i,
  agreeOn L m1 m2 →
  unmatchedFrom m1 file L i sl = unmatchedFrom m2 file L i sl.
Proof.
  induction sl as [|w rest IH]; intros i Hag; simpl; [done|].
  rewrite (IH (S i) Hag).
  repeat case_decide; try done; exfalso; destruct (Hag i); auto.
Qed.

Lemma filter_Forall_id {A} (P : A → Prop) `{!∀ x, Decision (P x)} (l : list A) :
  Forall P l → filter P l = l.
Proof.
  induction 1 as [|x l Hx _ IH]; [done|].
  rewrite filter_cons_True by done. by rewrite IH.
Qed.

Lemma filter_Forall_not {A} (P : A → Prop) `{!∀ x, Decision (P x)} (l : list A) :
  Forall (λ x, ¬ P x) l → filter P l = [].
Proof.
  induction 1 as [|x l Hx _ IH]; [done|].
  by rewrite filter_cons_False.
Qed.

Lemma onLine_other L line f : line ≠ L → onLine line f → ¬ onLine L f.
Proof. unfold onLine. congruence. Qed.

Lemma filter_onLine_entries m file L (es : list (Z * list string)) :
  NoDup es.*1 →
  filter (onLine L) (flat_map (λ e, unmatchedFrom m file e.1 0 e.2) es) =
  unmatchedFrom m file L 0 (default [] (list_to_map (M := warnings) es !! L)).
Proof.
  induction es as [|[line sl] es IH]; simpl; [done|].
  rewrite NoDup_cons. intros [Hnin Hnd]. rewrite filter_app, (IH Hnd).
  destruct (decide (line = L)) as [->|Hne].
  - rewrite lookup_insert_eq. simpl.
    rewrite filter_Forall_id by apply unmatchedFrom_onLine.
    rewrite (not_elem_of_list_to_map_1 _ _ Hnin). simpl. by rewrite app_nil_r.
  - rewrite lookup_insert_ne by done.
    rewrite filter_Forall_not; [done|].
    eapply Forall_impl; [apply unmatchedFrom_onLine|].
    intros f. by apply onLine_other.
Qed.

(** The reports of [checkUnmatched] for line [L] come from the slice of
    [L], in the order of the slice. *)
Lemma filter_onLine_checkUnmatched ws m file L :
  filter (onLine L) (checkUnmatched ws m file) =
  unmatchedFrom m file L 0 (default [] (ws !! L)).
Proof.
  unfold checkUnmatched.
  rewrite filter_onLine_entries by apply NoDup_fst_map_to_list.
  by rewrite list_to_map_to_list.
Qed.

Lemma length_filter_fmap {A B} (f : A → B) (P : B → Prop) `{!∀ x, Decision (P x)}
    (l : list A) :
  length (filter P (f <$> l)) = length (filter (λ x, P (f x)) l).
Proof.
  induction l as [|x l IH]; [done|]. rewrite fmap_cons.
  destruct (decide (P (f x))).
  - rewrite !filter_cons_True by done. simpl. by rewrite IH.
  - by rewrite !filter_cons_False.
Qed.

(** Each unconsumed record of a line is reported once: the number of
    reports with text [w] is the number of unconsumed records with text [w]. *)
Lemma unmatchedFrom_count m file line w sl : ∀ i : nat,
  length (filter (λ f, f = testing.Unmatched file line w) (unmatchedFrom m file line i sl)) =
  length (filter (λ j : nat, ((line, (i + j)%nat) ∉ m) ∧ sl !! j = Some w)
            (seq 0 (length sl))).
Proof.
  induction sl as [|x rest IH]; intros i; [done|].
  cbn [unmatchedFrom length seq]. rewrite <-fmap_S_seq.
  rewrite filter_app, length_app, (IH (S i)).
  destruct (decide (((line, (i + 0)%nat) ∉ m) ∧ (x :: rest) !! 0%nat = Some w)) as [[Hn Hx]|Hn].
  - rewrite (filter_cons_True _ 0%nat) by done. cbn [length].
    rewrite length_filter_fmap.
    rewrite Nat.add_0_r in Hn. simpl in Hx. injection Hx as ->.
    rewrite decide_False by done.
    rewrite filter_cons_True by done. simpl. f_equal. f_equal.
    apply list_filter_iff. intros j. simpl. by rewrite Nat.add_succ_r.
  - rewrite (filter_cons_False _ 0%nat) by done.
    rewrite length_filter_fmap.
    replace (length (filter _ (if decide ((line, i) ∈ m) then [] else _))) with 0%nat.
    + simpl. f_equal. apply list_filter_iff. intros j. simpl. by rewrite Nat.add_succ_r.
    + case_decide as Hin; [done|]. rewrite filter_cons_False; [done|].
      intros [= ->]. apply Hn. by rewrite Nat.add_0_r.
Qed.

Lemma unmatchedFrom_elem m file line sl f : ∀ i : nat,
  f ∈ unmatchedFrom m file line i sl →
  ∃ (j : nat) w, f = testing.Unmatched file line w ∧ sl !! j = Some w ∧ (line, (i + j)%nat) ∉ m.
Proof.
  induction sl as [|x rest IH]; intros i; simpl; [by intros ?%elem_of_nil|].
  rewrite elem_of_app. intros [Hf|Hf].
  - case_decide as Hin; [by apply elem_of_nil in Hf|].
    apply list_elem_of_singleton in Hf as ->.
    exists 0%nat, x. by rewrite Nat.add_0_r.
  - apply IH in Hf as (j & w & -> & Hj & Hn).
    exists (S j), w. by rewrite Nat.add_succ_r.
Qed.

Lemma checkUnmatched_elem ws m file f :
  f ∈ checkUnmatched ws m file →
  ∃ line (i : nat) w, f = testing.Unmatched file line w ∧
    ws !! line ≫= (.!! i) = Some w ∧ (line, i) ∉ m.
Proof.
  unfold checkUnmatched. rewrite list_elem_of_In, in_flat_map.
  intros ([line sl] & Hin & Hf).
  apply list_elem_of_In in Hin. apply list_elem_of_In in Hf.
  apply elem_of_map_to_list in Hin.
  apply unmatchedFrom_elem in Hf as (j & w & -> & Hj & Hn).
  exists line, j, w. by rewrite Hin.
Qed.

(** The matching loop records no unmatched expectation: these come from
    [checkUnmatched] only. *)
Lemma checkWarns_not_unmatched fnd fset file ws warns : ∀ m a b c,
  testing.Unmatched a b c ∉ (checkWarnsWith fnd fset file ws m warns).2.
Proof.
  induction warns as [|d rest IH]; intros m a b c; simpl; [apply not_elem_of_nil|].
  destruct (checkWarnWith fnd fset file ws m d) as [m1 l1] eqn:E1.
  specialize (IH m1 a b c).
  destruct (checkWarnsWith fnd fset file ws m1 rest) as [m2 l2]. simpl in *.
  rewrite elem_of_app. intros [Hin|Hin]; [|done].
  unfold checkWarnWith in E1.
  destruct (fnd ws _ _); injection E1 as <- <-.
  - case_decide; [|by apply elem_of_nil in Hin].
    by apply list_elem_of_singleton in Hin.
  - by apply list_elem_of_singleton in Hin.
Qed.

Lemma matchFileWith_eq fnd fset file ws warns :
  matchFileWith fnd fset file ws warns =
  (checkWarnsWith fnd fset file ws ∅ warns).2 ++
  checkUnmatched ws (checkWarnsWith fnd fset file ws ∅ warns).1 file.
Proof. unfold matchFileWith. by destruct (checkWarnsWith fnd fset file ws ∅ warns). Qed.


Lemma filter_eq_onLine (l : list testing.failure) L f :
  onLine L f →
  filter (λ x, x = f) l = filter (λ x, x = f) (filter (onLine L) l).
Proof.
  intros Hf. induction l as [|x l IH]; [done|].
  destruct (decide (onLine L x)) as [Hx|Hx].
  - rewrite (filter_cons_True (onLine L)) by done.
    destruct (decide (x = f)).
    + rewrite !(filter_cons_True (λ x, x = f)) by done. by rewrite IH.
    + by rewrite !(filter_cons_False (λ x, x = f)).
  - rewrite (filter_cons_False (onLine L)) by done.
    rewrite filter_cons_False; [done|]. by intros ->.
Qed.

(** ** A line whose expectations all have the same text *)








(** ** The scenarios of the specification, run on the model *)

Example scenarioA_run : matchFile lineFset fixtureName scenarioA_ws [warn5] = [].
Proof. vm_compute. reflexivity. Qed.

Example scenarioB_run :
  matchFile lineFset fixtureName scenarioA_ws [] = [testing.Unmatched fixtureName 5 nilDeref].
Proof. vm_compute. reflexivity. Qed.

Example scenarioC_run :
  matchFile lineFset fixtureName scenarioA_ws [warn5; warn9]
  = [testing.UnexpectedWarn fixtureName 9 unusedVar].
Proof. vm_compute. reflexivity. Qed.

Example scenarioD_run :
  matchFile lineFset fixtureName scenarioD_ws [warn5; warn5]
  = [testing.MultipleMatches fixtureName 5 nilDeref; testing.Unmatched fixtureName 5 nilDeref].
Proof. vm_compute. reflexivity. Qed.

Example scenarioD_silent_run :
  matchFile lineFset fixtureName scenarioD_ws []
  = [testing.Unmatched fixtureName 5 nilDeref; testing.Unmatched fixtureName 5 nilDeref].
Proof. vm_compute. reflexivity. Qed.

(** ** Claims on the match engine *)


(** C4. A diagnostic whose line carries no expectation with its text adds
    exactly one unexpected-diagnostic failure, with the file, the line and
    the text of the diagnostic, and leaves the set of consumed expectations
    as it was: the diagnostics after it are matched against the same set. *)
Theorem unexpected_diagnostic_reported fset file ws matched pre warn post :
  (∀ sl, ws !! warnLine fset warn = Some sl → linter.Text warn ∉ sl) →
  (∀ m, checkWarn fset file ws m warn =
        (m, [testing.UnexpectedWarn file (warnLine fset warn) (linter.Text warn)])) ∧
  checkWarns fset file ws matched (pre ++ warn :: post) =
    (let '(m1, l1) := checkWarns fset file ws matched pre in
     let '(m2, l2) := checkWarns fset file ws m1 post in
     (m2, l1 ++ testing.UnexpectedWarn file (warnLine fset warn) (linter.Text warn) :: l2)).
Proof.
  intros Hnone. apply find_None in Hnone.
  assert (∀ m, checkWarn fset file ws m warn =
            (m, [testing.UnexpectedWarn file (warnLine fset warn) (linter.Text warn)])) as Hstep.
  { intros m. unfold checkWarn, checkWarnWith, warnLine in *. by rewrite Hnone. }
  split; [done|].
  unfold checkWarns. rewrite checkWarnsWith_app.
  destruct (checkWarnsWith find fset file ws matched pre) as [m1 l1].
  simpl. specialize (Hstep m1). unfold checkWarn in Hstep. rewrite Hstep.
  by destruct (checkWarnsWith find fset file ws m1 post) as [m2 l2].
Qed.

(** C5. After the diagnostics of a file are processed, the report holds one
    unmatched-expectation failure for each expectation record that was not
    consumed: for every line and text, the number of such failures is the
    number of unconsumed records of the line with that text, so that equal
    records are counted one by one; and every such failure names the file,
    the line and the text of an unconsumed record. This holds whatever the
    lookup [fnd] of the matching loop returns. *)
Theorem unconsumed_expectations_reported fnd fset file ws warns :
  let matched := (checkWarnsWith fnd fset file ws ∅ warns).1 in
  (∀ line w,
     length (filter (λ f, f = testing.Unmatched file line w)
               (matchFileWith fnd fset file ws warns)) =
     length (filter (λ i : nat, ((line, i) ∉ matched) ∧ default [] (ws !! line) !! i = Some w)
               (seq 0 (length (default [] (ws !! line)))))) ∧
  (∀ file' line w,
     testing.Unmatched file' line w ∈ matchFileWith fnd fset file ws warns →
     file' = file ∧ ∃ i : nat, ws !! line ≫= (.!! i) = Some w ∧ (line, i) ∉ matched).
Proof.
  intros matched. split.
  - intros line w. rewrite matchFileWith_eq, filter_app, length_app. fold matched.
    rewrite (filter_Forall_not _ (checkWarnsWith fnd fset file ws ∅ warns).2).
    + simpl. rewrite (filter_eq_onLine _ line) by done.
      rewrite filter_onLine_checkUnmatched.
      by rewrite (unmatchedFrom_count matched file line w _ 0%nat).
    + apply Forall_forall. intros f Hf ->.
      by apply checkWarns_not_unmatched in Hf.
  - intros file' line w. rewrite matchFileWith_eq, elem_of_app. fold matched.
    intros [Hin|Hin]; [by apply checkWarns_not_unmatched in Hin|].
    apply checkUnmatched_elem in Hin as (l & i & w' & [= -> -> ->] & Hw & Hn).
    eauto.
Qed.

Lemma unconsumed_expectations_scenarioB :
  fixtureName = fixtureName ∧
  ∃ i : nat, scenarioA_ws !! 5 ≫= (.!! i) = Some nilDeref ∧
             (5, i) ∉ (checkWarnsWith find lineFset fixtureName scenarioA_ws ∅ []).1.
Proof.
  refine (proj2 (unconsumed_expectations_reported find lineFset fixtureName scenarioA_ws [])
            fixtureName 5 nilDeref _).
  assert (matchFileWith find lineFset fixtureName scenarioA_ws []
          = [testing.Unmatched fixtureName 5 nilDeref]) as -> by (vm_compute; reflexivity).
  apply list_elem_of_here.
Defined.



Lemma unexpected_diagnostic_scenarioC :
  checkWarns lineFset fixtureName scenarioA_ws ∅ ([warn5] ++ warn9 :: []) =
  (let '(m1, l1) := checkWarns lineFset fixtureName scenarioA_ws ∅ [warn5] in
   let '(m2, l2) := checkWarns lineFset fixtureName scenarioA_ws m1 [] in
   (m2, l1 ++ testing.UnexpectedWarn fixtureName 9 unusedVar :: l2)).
Proof.
  refine (proj2 (unexpected_diagnostic_reported lineFset fixtureName scenarioA_ws ∅
                   [warn5] warn9 [] _)).
  intros sl Hsl. vm_compute in Hsl. discriminate.
Defined.

(** ** stripDirectives *)

Lemma stripComment_no_prefix c :
  String.prefix "/// " (ast.Text (stripComment c)) = false.
Proof.
  unfold stripComment.
  destruct (String.prefix "/// " (ast.Text c)) eqn:Hp; [reflexivity | exact Hp].
Qed.

Lemma stripComment_idemp c : stripComment (stripComment c) = stripComment c.
Proof.
  unfold stripComment at 1. by rewrite stripComment_no_prefix.
Qed.

Lemma stripComment_Slash c : ast.Slash (stripComment c) = ast.Slash c.
Proof. unfold stripComment. by destruct (String.prefix _ _). Qed.

Lemma stripComment_other c :
  String.prefix "/// " (ast.Text c) = false → stripComment c = c.
Proof. unfold stripComment. by intros ->. Qed.

Lemma stripComment_directive c :
  String.prefix "/// " (ast.Text c) = true →
  stripComment c = ast.mkComment (ast.Slash c) "//".
Proof. unfold stripComment. by intros ->. Qed.

(** The nested loops visit the listed comments in order. *)
Lemma foldl_stripGroup h cgs :
  foldl stripGroup h cgs =
  foldl (λ h c, alter stripComment c h) h (mjoin (ast.List <$> cgs)).
Proof.
  revert h. induction cgs as [|cg cgs IH]; intros h; simpl; [done|].
  by rewrite foldl_app, IH.
Qed.

Lemma lookup_strip_locs (ls : list ast.loc) : ∀ (h : gmap ast.loc ast.Comment) l,
  foldl (λ h c, alter stripComment c h) h ls !! l =
  if decide (l ∈ ls) then stripComment <$> h !! l else h !! l.
Proof.
  induction ls as [|c ls IH]; intros h l; cbn [foldl].
  - case_decide as Hin; [by apply elem_of_nil in Hin | done].
  - rewrite IH, lookup_alter.
    destruct (decide (l ∈ c :: ls)) as [Hin|Hin].
    + destruct (decide (c = l)) as [->|Hne].
      * case_decide; [|done].
        destruct (h !! l) as [x|]; simpl; [|done]. by rewrite stripComment_idemp.
      * apply elem_of_cons in Hin as [->|Hin]; [done|]. by rewrite decide_True.
    + apply not_elem_of_cons in Hin as [Hne Hin].
      rewrite decide_False by done. by rewrite decide_False by done.
Qed.

Lemma lookup_stripDirectives {Decl} (f : ast.File Decl) l :
  ast.heap (stripDirectives f) !! l =
  if decide (l ∈ commentLocs f) then stripComment <$> ast.heap f !! l else ast.heap f !! l.
Proof.
  unfold stripDirectives, commentLocs. simpl.
  by rewrite foldl_stripGroup, lookup_strip_locs.
Qed.

Lemma elem_of_commentLocs {Decl} (f : ast.File Decl) l :
  l ∈ commentLocs f ↔ ∃ cg, cg ∈ ast.Comments f ∧ l ∈ ast.List cg.
Proof.
  unfold commentLocs. rewrite list_elem_of_join. split.
  - intros (ls & Hl & (cg & -> & Hcg)%list_elem_of_fmap). eauto.
  - intros (cg & Hcg & Hl). exists (ast.List cg). split; [done|].
    apply list_elem_of_fmap. eauto.
Qed.


(** C7. Stripping a stripped tree changes nothing. *)
Theorem stripDirectives_idempotent {Decl} (f : ast.File Decl) :
  stripDirectives (stripDirectives f) = stripDirectives f.
Proof.
  assert (ast.heap (stripDirectives (stripDirectives f)) = ast.heap (stripDirectives f)) as Hh.
  { apply map_eq. intros l. rewrite (lookup_stripDirectives (stripDirectives f)).
    change (commentLocs (stripDirectives f)) with (commentLocs f).
    case_decide as Hin; [|done].
    rewrite lookup_stripDirectives, decide_True by done.
    destruct (ast.heap f !! l) as [x|]; simpl; [|done]. by rewrite stripComment_idemp. }
  unfold stripDirectives at 1. cbn [ast.Doc ast.Package ast.Name ast.Decls ast.Comments].
  unfold stripDirectives in Hh at 1. cbn [ast.heap ast.Comments] in Hh.
  rewrite Hh. by destruct f.
Qed.

(** C8. Stripping keeps every field of the file but the comment objects,
    and keeps the set of comment objects. A comment that the file lists and
    whose text begins with the directive prefix gets the text of an empty
    line comment; its position stays. Every other comment object stays as
    it was. So the position of every comment, and with it every line and
    column, is the same before and after. *)
Theorem stripDirectives_frame {Decl} (f : ast.File Decl) :
  ast.Doc (stripDirectives f) = ast.Doc f ∧
  ast.Package (stripDirectives f) = ast.Package f ∧
  ast.Name (stripDirectives f) = ast.Name f ∧
  ast.Decls (stripDirectives f) = ast.Decls f ∧
  ast.Comments (stripDirectives f) = ast.Comments f ∧
  dom (ast.heap (stripDirectives f)) = dom (ast.heap f) ∧
  ∀ l c, ast.heap f !! l = Some c →
    ∃ c', ast.heap (stripDirectives f) !! l = Some c' ∧
      ast.Comment_Pos c' = ast.Comment_Pos c ∧
      (if decide (l ∈ commentLocs f ∧ String.prefix "/// " (ast.Text c) = true)
       then ast.Text c' = "//"
       else c' = c).
Proof.
  repeat (split; [done|]).
  split.
  - apply set_eq. intros l. rewrite !elem_of_dom, lookup_stripDirectives.
    case_decide; [|done]. by rewrite fmap_is_Some.
  - intros l c Hl. rewrite lookup_stripDirectives, Hl.
    destruct (decide (l ∈ commentLocs f)) as [Hin|Hin]; simpl.
    + exists (stripComment c). split; [done|].
      split; [apply stripComment_Slash|].
      destruct (String.prefix "/// " (ast.Text c)) eqn:Hp.
      * rewrite decide_True by done. by rewrite stripComment_directive.
      * rewrite decide_False by (intros [_ ?]; done). by apply stripComment_other.
    + exists c. split; [done|]. split; [done|].
      rewrite decide_False; [done|]. by intros [? _].
Qed.

Example stripDirectives_annotated :
  ast.heap (stripDirectives (annotated "/// secret")) = {[ 1%positive := ast.mkComment 7 "//" ]}.
Proof. vm_compute. reflexivity. Qed.

Example stripDirectives_plain_comment :
  stripDirectives (annotated "// see below") = annotated "// see below".
Proof. vm_compute. reflexivity. Qed.

Lemma stripDirectives_frame_annotated :
  ∃ c', ast.heap (stripDirectives (annotated "/// secret")) !! 1%positive = Some c' ∧
    ast.Comment_Pos c' = ast.Comment_Pos (ast.mkComment 7 "/// secret") ∧
    (if decide (1%positive ∈ commentLocs (annotated "/// secret") ∧
                String.prefix "/// " (ast.Text (ast.mkComment 7 "/// secret")) = true)
     then ast.Text c' = "//"
     else c' = ast.mkComment 7 "/// secret").
Proof.
  refine (proj2 (proj2 (proj2 (proj2 (proj2 (proj2
    (stripDirectives_frame (annotated "/// secret")))))))
    1%positive (ast.mkComment 7 "/// secret") _).
  vm_compute. reflexivity.
Defined.

(** ** loadPackages *)

Lemma visitUnit_app {Decl} (result : list (packages.Package Decl)) u :
  visitUnit result u = result ++ visitUnit [] u.
Proof.
  unfold visitUnit.
  destruct (pkgload.ExternalTest u), (pkgload.Test u); simpl;
    by rewrite <-?app_assoc.
Qed.

Lemma foldl_visitUnit {Decl} (units : list (pkgload.Unit Decl)) : ∀ result,
  foldl visitUnit result units = result ++ mjoin (visitUnit [] <$> units).
Proof.
  induction units as [|u units IH]; intros result; simpl.
  - by rewrite app_nil_r.
  - by rewrite IH, (visitUnit_app result), app_assoc.
Qed.

(** C6. The loader returns, unit after unit in the order of the visit, the
    packages selected from the unit. The selection of a unit holds its
    external-test variant whenever there is one, and after it exactly one
    more package: the test-augmented variant when there is one, the base
    otherwise. With a test-augmented variant, the base is not selected. *)
Theorem loadPackages_variants {Decl} (E : Env Decl) patterns :
  loadPackages E patterns =
    (λ r, (r.1, mjoin (visitUnit [] <$> VisitUnits E r.2))) <$> Load E patterns ∧
  (∀ fset pkgs u p,
     Load E patterns = Some (fset, pkgs) → u ∈ VisitUnits E pkgs → p ∈ visitUnit [] u →
     ∃ result, loadPackages E patterns = Some (fset, result) ∧ p ∈ result) ∧
  ∀ u : pkgload.Unit Decl,
    (∀ x, pkgload.ExternalTest u = Some x → x ∈ visitUnit [] u) ∧
    visitUnit [] u =
      option_list (pkgload.ExternalTest u) ++ [default (pkgload.Base u) (pkgload.Test u)] ∧
    (∀ t, pkgload.Test u = Some t → t ∈ visitUnit [] u ∧
       (pkgload.Base u ≠ t → pkgload.ExternalTest u ≠ Some (pkgload.Base u) →
        pkgload.Base u ∉ visitUnit [] u)) ∧
    (pkgload.Test u = None → pkgload.Base u ∈ visitUnit [] u).
Proof.
  assert (loadPackages E patterns =
    (λ r, (r.1, mjoin (visitUnit [] <$> VisitUnits E r.2))) <$> Load E patterns) as Hload.
  { unfold loadPackages. destruct (Load E patterns) as [[fset pkgs]|]; simpl; [|done].
    by rewrite foldl_visitUnit. }
  split; [done|]. split.
  - intros fset pkgs u p HL Hu Hp. rewrite Hload, HL. cbn.
    eexists. split; [done|]. apply list_elem_of_join.
    exists (visitUnit [] u). split; [done|]. apply list_elem_of_fmap. eauto.
  - intros u. unfold visitUnit.
    destruct (pkgload.ExternalTest u) as [x|], (pkgload.Test u) as [t|]; simpl;
      (split; [intros ? [= <-] || intros ? [=]; set_solver|]);
      (split; [done|]); split; try done.
    + intros ? [= <-]. split; [set_solver|]. intros Hb Hx.
      rewrite !not_elem_of_cons. split_and!; [congruence | done | apply not_elem_of_nil].
    + intros _. set_solver.
    + intros ? [= <-]. split; [set_solver|]. intros Hb _.
      rewrite !not_elem_of_cons. split_and!; [done | apply not_elem_of_nil].
    + intros _. set_solver.
Qed.

Lemma loadPackages_variants_sanity :
  ∃ result, loadPackages flakyEnv [sanityPkgPath] = Some (lineFset, result) ∧
            sanityXTest ∈ result.
Proof.
  refine (proj1 (proj2 (loadPackages_variants flakyEnv [sanityPkgPath]))
            lineFset [sanityBase; sanityXTest] sanityUnit sanityXTest _ _ _).
  - reflexivity.
  - cbn. apply list_elem_of_here.
  - cbn. apply list_elem_of_here.
Defined.

(** ** The sanity phase *)

Lemma runDeferred_cons d ds s : runDeferred (d :: ds) s = runDeferred ds (d s).
Proof. reflexivity. Qed.

Lemma runDeferred_returning info (n : nat) : ∀ s,
  panicking s = false →
  runDeferred (replicate n (sanityDeferred info)) s =
  mkSanityState (saneList s ++ replicate n info) (tlog s) false.
Proof.
  induction n as [|n IH]; intros [sane l p] Hp; cbn [panicking] in Hp; subst p.
  - cbn. by rewrite app_nil_r.
  - cbn [replicate]. rewrite runDeferred_cons, IH by done.
    cbn. by rewrite <-app_assoc.
Qed.

(** When the function panics, the closure deferred last recovers and
    reports; the closures deferred before it then see no panic. *)
Lemma runDeferred_panicking info (n : nat) s :
  runDeferred (replicate (S n) (sanityDeferred info))
    (mkSanityState (saneList s) (tlog s) true) =
  mkSanityState (saneList s ++ replicate n info) (tlog s ++ [testing.UnexpectedPanic]) false.
Proof.
  cbn [replicate]. rewrite runDeferred_cons. by rewrite runDeferred_returning.
Qed.

Lemma sanityUnits_spec {Decl} (E : Env Decl) info fset pkgs : ∀ (n : nat) s,
  panicking s = false →
  sanityUnits E info fset pkgs (replicate n (sanityDeferred info)) s =
  match firstPanic E info fset pkgs with
  | None => mkSanityState (saneList s ++ replicate (n + length pkgs) info) (tlog s) false
  | Some i => mkSanityState (saneList s ++ replicate (n + i) info)
                (tlog s ++ [testing.UnexpectedPanic]) false
  end.
Proof.
  induction pkgs as [|pkg rest IH]; intros n s Hp; cbn [sanityUnits firstPanic length].
  - rewrite runDeferred_returning by done. by rewrite Nat.add_0_r.
  - change (sanityDeferred info :: replicate n (sanityDeferred info))
      with (replicate (S n) (sanityDeferred info)).
    destruct (sanityFiles E info fset pkg (packages.Syntax pkg)).
    + rewrite runDeferred_panicking. by rewrite Nat.add_0_r.
    + rewrite (IH (S n) s Hp).
      destruct (firstPanic E info fset rest) as [i|]; cbn [fmap option_fmap option_map];
        by rewrite ?Nat.add_succ_r.
Qed.

Lemma sanityFiles_false {Decl} (E : Env Decl) info fset pkg files :
  (∀ f, f ∈ files → Check E info fset pkg (getFilename E fset f) f ≠ linter.Panics) →
  sanityFiles E info fset pkg files = false.
Proof.
  induction files as [|f rest IH]; intros Hok; simpl; [done|].
  destruct (Check E info fset pkg (getFilename E fset f) f) eqn:Hc.
  - apply IH. intros g Hg. apply Hok. by apply list_elem_of_further.
  - exfalso. by apply (Hok f); [apply list_elem_of_here|].
Qed.


(** The number of times a sanity subtest admits its checker. *)
Lemma sanitySubtest_appends {Decl} (E : Env Decl) info :
  ∃ n : nat, ∀ sane, (sanitySubtest E info sane).1 = sane ++ replicate n info.
Proof.
  unfold sanitySubtest, newPackages.
  destruct (loadPackages E [sanityPkgPath]) as [[fset pkgs]|]; simpl.
  - pose proof (sanityUnits_spec E info fset pkgs 0) as Hs. simpl in Hs.
    destruct (firstPanic E info fset pkgs) as [i|].
    + exists i. intros sane. by rewrite Hs.
    + exists (length pkgs). intros sane. by rewrite Hs.
  - exists 0%nat. intros sane. by rewrite app_nil_r.
Qed.





Lemma runSubtests_no_panic {A} (tests : list (A * testing.T unit)) :
  (∀ t, t ∈ tests → testing.status t.2 ≠ testing.Panic) →
  runSubtests tests = tests.
Proof.
  induction tests as [|[a r] tests IH]; intros Hok; simpl; [done|].
  assert (testing.status r ≠ testing.Panic) as Hr.
  { apply (Hok (a, r)). apply list_elem_of_here. }
  rewrite IH by (intros t Ht; apply Hok; by apply list_elem_of_further).
  by destruct (testing.status r).
Qed.


(** The outcome of a sanity subtest whose fixture loads: the checker is
    appended once per unit when it panics nowhere, and once per unit that
    came before the panic otherwise. *)
Lemma sanitySubtest_loaded {Decl} (E : Env Decl) info fset pkgs sane :
  loadPackages E [sanityPkgPath] = Some (fset, pkgs) →
  sanitySubtest E info sane =
  match firstPanic E info fset pkgs with
  | None => (sane ++ replicate (length pkgs) info, testing.mkT (testing.Ret tt) [])
  | Some i => (sane ++ replicate i info,
               testing.mkT (testing.Ret tt) [testing.UnexpectedPanic])
  end.
Proof.
  intros Hload. unfold sanitySubtest, newPackages. rewrite Hload. cbn.
  pose proof (sanityUnits_spec E info fset pkgs 0 (mkSanityState sane [] false) eq_refl) as Hs.
  cbn in Hs. rewrite Hs. by destruct (firstPanic E info fset pkgs).
Qed.

(** A checker that panics in the first unit is not admitted. *)
Lemma sanity_panic_first_unit {Decl} (E : Env Decl) info fset pkgs sane :
  loadPackages E [sanityPkgPath] = Some (fset, pkgs) →
  firstPanic E info fset pkgs = Some 0%nat →
  (sanitySubtest E info sane).1 = sane.
Proof.
  intros Hload Hp. rewrite (sanitySubtest_loaded E info fset pkgs sane Hload), Hp.
  cbn. by rewrite app_nil_r.
Qed.



(** C2 fails on the code. The sanity fixture loads as two units, the
    external-test package and the base package; the checker completes the
    first and panics in the second. The closure deferred for the second
    unit recovers and reports the panic; the closure deferred for the first
    unit then finds no panic and appends the checker, whose fixture test is
    run. *)
Theorem sanity_panic_second_unit :
  loadPackages flakyEnv [sanityPkgPath] = Some (lineFset, [sanityXTest; sanityBase]) ∧
  Check flakyEnv flaky lineFset sanityBase
    (getFilename flakyEnv lineFset (plainFile 1)) (plainFile 1) = linter.Panics ∧
  sanityPhase flakyEnv =
    ([flaky], [(flaky, testing.mkT (testing.Ret tt) [testing.UnexpectedPanic])]) ∧
  flaky ∈ saneCheckersList flakyEnv ∧
  (TestCheckers flakyEnv).*1 = [flaky].
Proof.
  assert (sanityPhase flakyEnv =
    ([flaky], [(flaky, testing.mkT (testing.Ret tt) [testing.UnexpectedPanic])])) as Hphase
    by (vm_compute; reflexivity).
  split; [vm_compute; reflexivity|].
  split; [vm_compute; reflexivity|].
  split; [done|].
  unfold TestCheckers, saneCheckersList. rewrite Hphase. cbn [fst].
  split; [apply list_elem_of_here|].
  cbn [map runSubtests fmap list_fmap]. by destruct (testing.status _).
Qed.

(** ** checkFile *)

Lemma checkFile_eq {Decl} (E : Env Decl) info fset pkg f :
  checkFile E info fset pkg f =
  match Open E (testFilenameOf E info fset f) with
  | None => testing.Fatalf (testing.ReadFile (testFilenameOf E info fset f))
  | Some rc =>
      match newWarnings E rc with
      | None => testing.Fatalf (testing.NewWarningsError (testFilenameOf E info fset f))
      | Some ws =>
          match Check E info fset pkg (getFilename E fset f) (stripDirectives f) with
          | linter.Returns warns =>
              testing.mkT (testing.Ret tt)
                (matchFile fset (testFilenameOf E info fset f) ws warns)
          | linter.Panics => testing.panic
          end
      end
  end.
Proof.
  unfold checkFile, testFilenameOf, mbind, T_bind, testing.bind.
  destruct (Open E _) as [rc|]; [|done]. cbn.
  destruct (newWarnings E rc) as [ws|]; [|done]. cbn.
  by destruct (Check E info fset pkg _ _).
Qed.



Example peekCheck_raw :
  peekCheck flaky lineFset sanityBase "a.go" (annotated "/// secret")
  = linter.Returns [linter.mkWarning 7 "/// secret"].
Proof. vm_compute. reflexivity. Qed.

Example peekCheck_in_checkFile :
  checkFile peekEnv flaky lineFset sanityBase (annotated "/// secret")
  = testing.mkT (testing.Ret tt) [].
Proof. vm_compute. reflexivity. Qed.


(** ** The fixture test of a checker *)








(** A loop all of whose iterations return runs them all. *)
Lemma forEach_returns {A} (body : A → testing.T unit) xs :
  (∀ x, x ∈ xs → testing.status (body x) = testing.Ret tt) →
  testing.forEach body xs =
  testing.mkT (testing.Ret tt) (mjoin ((λ x, testing.log (body x)) <$> xs)).
Proof.
  induction xs as [|x xs IH]; intros Hok; simpl; [done|].
  unfold testing.bind. rewrite (Hok x) by apply list_elem_of_here.
  rewrite IH by (intros y Hy; apply Hok; by apply list_elem_of_further). done.
Qed.


Example noisy_run :
  fixtureTest noisyEnv flaky =
  testing.mkT (testing.Ret tt)
    [testing.UnexpectedWarn "testdata/flaky/a.go" 9 unusedVar;
     testing.Unmatched "testdata/flaky/a.go" 5 nilDeref;
     testing.UnexpectedWarn "testdata/flaky/a.go" 9 unusedVar;
     testing.Unmatched "testdata/flaky/a.go" 5 nilDeref].
Proof. vm_compute. reflexivity. Qed.


(** * Further properties of the harness *)

(** ** The lookup and the set of consumed expectations *)

Lemma find_sound : lookupSound find.
Proof.
  intros ws line text w Hf. split; [by apply find_line in Hf|].
  unfold find in Hf. destruct (indexOf _ _) as [i|] eqn:Hi; [|done].
  injection Hf as <-. cbn. apply indexOf_Some in Hi.
  by destruct (ws !! line) as [sl|].
Qed.

Lemma found_cons fnd fset ws d rest :
  found fnd fset ws (d :: rest) =
  match fnd ws (warnLine fset d) (linter.Text d) with
  | Some w => w :: found fnd fset ws rest
  | None => found fnd fset ws rest
  end.
Proof. reflexivity. Qed.

Lemma checkWarnsWith_matched fnd fset file ws warns : ∀ m,
  (checkWarnsWith fnd fset file ws m warns).1 = m ∪ list_to_set (found fnd fset ws warns).
Proof.
  induction warns as [|d rest IH]; intros m.
  - change (m = m ∪ list_to_set []). by rewrite list_to_set_nil, union_empty_r_L.
  - cbn [checkWarnsWith]. rewrite found_cons.
    unfold checkWarnWith. fold (warnLine fset d).
    destruct (fnd ws (warnLine fset d) (linter.Text d)) as [w|].
    + specialize (IH (m ∪ {[w]})).
      destruct (checkWarnsWith fnd fset file ws (m ∪ {[w]}) rest) as [m2 l2].
      cbn [fst snd] in *. rewrite IH, list_to_set_cons. by rewrite (assoc_L (∪)).
    + specialize (IH m).
      destruct (checkWarnsWith fnd fset file ws m rest) as [m2 l2]. by cbn [fst snd] in *.
Qed.

Lemma elem_of_found fnd fset ws warns w :
  w ∈ found fnd fset ws warns ↔
  ∃ d, d ∈ warns ∧ fnd ws (warnLine fset d) (linter.Text d) = Some w.
Proof. unfold found. apply list_elem_of_omap. Qed.

(** X1. The loop never removes a consumed expectation, and the
    expectations consumed at its end are those consumed before and those
    that the lookup returned for some diagnostic. *)
Theorem matched_only_grows fnd fset file ws m warns :
  m ⊆ (checkWarnsWith fnd fset file ws m warns).1 ∧
  ∀ w, w ∈ (checkWarnsWith fnd fset file ws m warns).1 ↔
       w ∈ m ∨ ∃ d, d ∈ warns ∧ fnd ws (warnLine fset d) (linter.Text d) = Some w.
Proof.
  rewrite checkWarnsWith_matched. split; [apply union_subseteq_l|].
  intros w. by rewrite elem_of_union, elem_of_list_to_set, elem_of_found.
Qed.

(** X2. Every diagnostic either consumes an expectation that was not
    consumed before or is reported by the loop: the diagnostics and the
    expectations consumed before are as many as the reports and the
    expectations consumed after. *)
Theorem diagnostics_consume_or_report fnd fset file ws warns : ∀ m,
  (length warns + size m)%nat =
  (length (checkWarnsWith fnd fset file ws m warns).2 +
   size (checkWarnsWith fnd fset file ws m warns).1)%nat.
Proof.
  induction warns as [|d rest IH]; intros m; cbn [checkWarnsWith length]; [done|].
  unfold checkWarnWith.
  destruct (fnd ws _ (linter.Text d)) as [w|].
  - specialize (IH (m ∪ {[w]})).
    destruct (checkWarnsWith fnd fset file ws (m ∪ {[w]}) rest) as [m2 l2].
    cbn [fst snd] in *. rewrite length_app.
    destruct (decide (w ∈ m)) as [Hin|Hin].
    + assert (m ∪ {[w]} = m) as Heq.
      { rewrite union_comm_L. by apply subseteq_union_1_L, singleton_subseteq_l. }
      rewrite Heq in IH. cbn. lia.
    + assert (size (m ∪ {[w]}) = S (size m)) as Hsz.
      { rewrite size_union by (by apply disjoint_singleton_r).
        rewrite size_singleton. lia. }
      rewrite Hsz in IH. cbn. lia.
  - specialize (IH m).
    destruct (checkWarnsWith fnd fset file ws m rest) as [m2 l2].
    cbn [fst snd] in *. cbn. lia.
Qed.

(** ** When a file passes *)

(** The loop logs nothing exactly when every diagnostic finds an
    expectation, no two find the same one, and none was consumed before. *)
Lemma checkWarnsWith_silent fnd fset file ws warns : ∀ m,
  (checkWarnsWith fnd fset file ws m warns).2 = [] ↔
  Forall (λ d, is_Some (fnd ws (warnLine fset d) (linter.Text d))) warns ∧
  NoDup (found fnd fset ws warns) ∧
  ∀ w, w ∈ found fnd fset ws warns → w ∉ m.
Proof.
  induction warns as [|d rest IH]; intros m.
  - cbn. split; [|done]. intros _. split; [constructor|]. split; [constructor|].
    intros w Hw. by apply elem_of_nil in Hw.
  - cbn [checkWarnsWith]. rewrite found_cons, Forall_cons.
    unfold checkWarnWith. fold (warnLine fset d).
    destruct (fnd ws (warnLine fset d) (linter.Text d)) as [w|].
    + specialize (IH (m ∪ {[w]})).
      destruct (checkWarnsWith fnd fset file ws (m ∪ {[w]}) rest) as [m2 l2].
      cbn [fst snd] in *. rewrite NoDup_cons.
      destruct (decide (w ∈ m)) as [Hin|Hin].
      * split; [done|]. intros (_ & _ & Hm). exfalso.
        by apply (Hm w); [apply list_elem_of_here|].
      * cbn [app]. rewrite IH. split.
        -- intros (Hall & Hnd & Hm). split; [by split; [eexists|]|].
           split; [split; [|done]|].
           ++ intros Hw. apply (Hm w Hw). apply elem_of_union_r. by apply elem_of_singleton.
           ++ intros w' [->|Hw']%elem_of_cons; [done|].
              intros Hw'm. apply (Hm w' Hw'). by apply elem_of_union_l.
        -- intros ([_ Hall] & [Hwn Hnd] & Hm). split; [done|]. split; [done|].
           intros w' Hw'. rewrite elem_of_union, elem_of_singleton.
           intros [Hw'm| ->]; [|done].
           by apply (Hm w'); [apply list_elem_of_further|].
    + destruct (checkWarnsWith fnd fset file ws m rest) as [m2 l2].
      cbn [fst snd]. split; [done|]. intros ([[x Hx] _] & _). done.
Qed.

Lemma unmatchedFrom_nil m file line sl : ∀ i : nat,
  unmatchedFrom m file line i sl = [] ↔
  ∀ j : nat, (j < length sl)%nat → (line, (i + j)%nat) ∈ m.
Proof.
  induction sl as [|x rest IH]; intros i; cbn [unmatchedFrom length].
  - split; [|done]. intros _ j Hj. lia.
  - destruct (decide ((line, i) ∈ m)) as [Hin|Hin]; cbn [app].
    + rewrite (IH (S i)). split.
      * intros H [|j] Hj; [by rewrite Nat.add_0_r|].
        rewrite Nat.add_succ_r. apply H. lia.
      * intros H j Hj. specialize (H (S j)). rewrite Nat.add_succ_r in H. apply H. lia.
    + split; [done|]. intros H. exfalso. apply Hin.
      specialize (H 0%nat). rewrite Nat.add_0_r in H. apply H. lia.
Qed.

Lemma flat_map_nil {A B} (g : A → list B) (l : list A) :
  flat_map g l = [] ↔ ∀ x, x ∈ l → g x = [].
Proof.
  induction l as [|a l IH]; cbn.
  - split; [|done]. intros _ x Hx. by apply elem_of_nil in Hx.
  - split.
    + intros [Ha Hl]%app_eq_nil x [->|Hx]%elem_of_cons; [done|]. by apply IH.
    + intros H. rewrite (H a) by apply list_elem_of_here. cbn.
      apply IH. intros x Hx. apply H. by apply list_elem_of_further.
Qed.

(** [checkUnmatched] reports nothing exactly when every expectation record
    is consumed. *)
Lemma checkUnmatched_nil ws m file :
  checkUnmatched ws m file = [] ↔
  ∀ line (i : nat) w, ws !! line ≫= (.!! i) = Some w → (line, i) ∈ m.
Proof.
  unfold checkUnmatched. rewrite flat_map_nil. split.
  - intros H line i w Hw.
    destruct (ws !! line) as [sl|] eqn:Hsl; [|done]. cbn in Hw.
    specialize (H (line, sl)). cbn in H.
    rewrite unmatchedFrom_nil in H by done.
    apply (H ltac:(by apply elem_of_map_to_list) i). by eapply lookup_lt_Some.
  - intros H [line sl] Hin%elem_of_map_to_list. cbn.
    apply unmatchedFrom_nil. intros j Hj. cbn.
    destruct (lookup_lt_is_Some_2 sl j Hj) as [w Hw].
    apply (H line j w). by rewrite Hin.
Qed.

(** X3. A file passes, that is, nothing is reported for it, exactly when
    the lookup maps the diagnostics one to one onto the expectation
    records: every diagnostic finds an expectation, no two diagnostics find
    the same one, and every expectation record is found. *)
Theorem pass_iff_one_to_one fnd fset file ws warns :
  matchFileWith fnd fset file ws warns = [] ↔
  Forall (λ d, is_Some (fnd ws (warnLine fset d) (linter.Text d))) warns ∧
  NoDup (found fnd fset ws warns) ∧
  ∀ line (i : nat) w, ws !! line ≫= (.!! i) = Some w → (line, i) ∈ found fnd fset ws warns.
Proof.
  rewrite matchFileWith_eq. split.
  - intros [Hloop Hun]%app_eq_nil.
    apply checkWarnsWith_silent in Hloop as (Hall & Hnd & _).
    split; [done|]. split; [done|].
    intros line i w Hw.
    rewrite checkUnmatched_nil in Hun. specialize (Hun line i w Hw).
    rewrite checkWarnsWith_matched, elem_of_union, elem_of_list_to_set in Hun.
    destruct Hun as [Hun|Hun]; [by apply not_elem_of_empty in Hun | done].
  - intros (Hall & Hnd & Hcover).
    assert ((checkWarnsWith fnd fset file ws ∅ warns).2 = []) as ->.
    { apply checkWarnsWith_silent. split; [done|]. split; [done|].
      intros w _. apply not_elem_of_empty. }
    cbn [app]. apply checkUnmatched_nil. intros line i w Hw.
    rewrite checkWarnsWith_matched, elem_of_union, elem_of_list_to_set.
    right. by eapply Hcover.
Qed.

Lemma pass_scenarioA :
  matchFileWith find lineFset fixtureName scenarioA_ws [warn5] = [].
Proof.
  apply (proj2 (pass_iff_one_to_one find lineFset fixtureName scenarioA_ws [warn5])).
  split; [|split].
  - repeat constructor. eexists. vm_compute. reflexivity.
  - change (found find lineFset scenarioA_ws [warn5]) with [(5, 0%nat)].
    apply NoDup_singleton.
  - change (found find lineFset scenarioA_ws [warn5]) with [(5, 0%nat)].
    intros line i w Hw. unfold scenarioA_ws in Hw.
    destruct (decide (line = 5)) as [->|Hne].
    + rewrite lookup_singleton_eq in Hw. cbn in Hw.
      destruct i as [|i]; [apply list_elem_of_here | done].
    + by rewrite lookup_singleton_ne in Hw.
Defined.

(** ** The order of the diagnostics *)

Lemma checkWarnsWith_cons fnd fset file ws m d rest :
  checkWarnsWith fnd fset file ws m (d :: rest) =
  ((checkWarnsWith fnd fset file ws (checkWarnWith fnd fset file ws m d).1 rest).1,
   (checkWarnWith fnd fset file ws m d).2 ++
   (checkWarnsWith fnd fset file ws (checkWarnWith fnd fset file ws m d).1 rest).2).
Proof.
  cbn [checkWarnsWith]. destruct (checkWarnWith fnd fset file ws m d) as [m1 l1].
  cbn [fst snd]. by destruct (checkWarnsWith fnd fset file ws m1 rest).
Qed.

(** Two neighbouring diagnostics can be handled in either order. *)
Lemma checkWarnWith_swap fnd fset file ws m d1 d2 :
  lookupSound fnd →
  (checkWarnWith fnd fset file ws (checkWarnWith fnd fset file ws m d1).1 d2).1 =
  (checkWarnWith fnd fset file ws (checkWarnWith fnd fset file ws m d2).1 d1).1 ∧
  (checkWarnWith fnd fset file ws m d1).2 ++
    (checkWarnWith fnd fset file ws (checkWarnWith fnd fset file ws m d1).1 d2).2
  ≡ₚ
  (checkWarnWith fnd fset file ws m d2).2 ++
    (checkWarnWith fnd fset file ws (checkWarnWith fnd fset file ws m d2).1 d1).2.
Proof.
  intros Hsound. unfold checkWarnWith.
  fold (warnLine fset d1). fold (warnLine fset d2).
  destruct (fnd ws (warnLine fset d1) (linter.Text d1)) as [w1|] eqn:H1,
           (fnd ws (warnLine fset d2) (linter.Text d2)) as [w2|] eqn:H2;
    cbn [fst snd]; rewrite ?H1, ?H2; cbn [fst snd].
  - split; [by rewrite <-!(assoc_L (∪)), (comm_L (∪) {[w1]})|].
    destruct (decide (w1 = w2)) as [->|Hne].
    + destruct (Hsound _ _ _ _ H1) as [Hl1 _], (Hsound _ _ _ _ H2) as [Hl2 _].
      rewrite <-Hl1, <-Hl2. done.
    + assert (w2 ∈ m ∪ {[w1]} ↔ w2 ∈ m) as Hw2.
      { rewrite elem_of_union, elem_of_singleton.
        split; [intros [?|?]; [done | congruence] | auto]. }
      assert (w1 ∈ m ∪ {[w2]} ↔ w1 ∈ m) as Hw1.
      { rewrite elem_of_union, elem_of_singleton.
        split; [intros [?|?]; [done | congruence] | auto]. }
      rewrite (decide_ext _ _ _ _ Hw2), (decide_ext _ _ _ _ Hw1).
      apply Permutation_app_comm.
  - split; [done|]. apply Permutation_app_comm.
  - split; [done|]. apply Permutation_app_comm.
  - split; [done|]. apply perm_swap.
Qed.

Lemma checkWarnsWith_Permutation fnd fset file ws warns1 warns2 :
  lookupSound fnd → warns1 ≡ₚ warns2 →
  ∀ m,
  (checkWarnsWith fnd fset file ws m warns1).1 = (checkWarnsWith fnd fset file ws m warns2).1 ∧
  (checkWarnsWith fnd fset file ws m warns1).2 ≡ₚ (checkWarnsWith fnd fset file ws m warns2).2.
Proof.
  intros Hsound Hperm.
  induction Hperm as [|d l1 l2 _ IH|d1 d2 l|l1 l2 l3 _ IH1 _ IH2]; intros m.
  - done.
  - rewrite !checkWarnsWith_cons. cbn [fst snd].
    destruct (IH (checkWarnWith fnd fset file ws m d).1) as [Hm Hl].
    split; [done|]. by rewrite Hl.
  - rewrite !checkWarnsWith_cons. cbn [fst snd].
    destruct (checkWarnWith_swap fnd fset file ws m d1 d2 Hsound) as [Hm Hl].
    rewrite Hm. split; [done|]. rewrite !app_assoc. by rewrite Hl.
  - destruct (IH1 m) as [Hm1 Hl1], (IH2 m) as [Hm2 Hl2].
    split; [congruence | by etrans].
Qed.

(** X4. The report of a file does not depend on the order in which the
    checker returns its diagnostics: a permutation of the diagnostics
    consumes the same expectations and gives the same failures, up to
    their order. *)
Theorem report_order_independent fnd fset file ws warns1 warns2 :
  lookupSound fnd → warns1 ≡ₚ warns2 →
  (checkWarnsWith fnd fset file ws ∅ warns1).1 = (checkWarnsWith fnd fset file ws ∅ warns2).1 ∧
  matchFileWith fnd fset file ws warns1 ≡ₚ matchFileWith fnd fset file ws warns2.
Proof.
  intros Hsound Hperm.
  destruct (checkWarnsWith_Permutation fnd fset file ws warns1 warns2 Hsound Hperm ∅)
    as [Hm Hl].
  split; [done|]. rewrite !matchFileWith_eq, Hm. by rewrite Hl.
Qed.

Lemma report_order_independent_scenarioC :
  matchFileWith find lineFset fixtureName scenarioA_ws [warn5; warn9] ≡ₚ
  matchFileWith find lineFset fixtureName scenarioA_ws [warn9; warn5].
Proof.
  refine (proj2 (report_order_independent find lineFset fixtureName scenarioA_ws
                   [warn5; warn9] [warn9; warn5] find_sound _)).
  apply perm_swap.
Defined.

(** ** Consuming more, reporting less *)

Lemma unmatchedFrom_sublist (m m' : gset ptr) (file : string) (line : Z) sl : ∀ i : nat,
  m ⊆ m' →
  unmatchedFrom m' file line i sl `sublist_of` unmatchedFrom m file line i sl.
Proof.
  induction sl as [|x rest IH]; intros i Hsub; cbn [unmatchedFrom]; [done|].
  apply sublist_app; [|by apply IH].
  destruct (decide ((line, i) ∈ m')) as [Hin'|Hin'].
  - apply sublist_nil_l.
  - rewrite decide_False; [done|]. intros Hin. apply Hin'. by apply Hsub.
Qed.

(** X5. The more expectations are consumed, the fewer are reported as
    unmatched. For a larger set of consumed expectations the report of
    every line is the report of that line for the smaller set with some
    entries left out, in the order of the slice of the line; the whole
    report, whatever the order in which the lines are visited, holds only
    entries of the report for the smaller set, each at most as often; and
    it is not longer. *)
Theorem consuming_more_reports_less (ws : warnings) (m m' : gset ptr) (file : string) :
  m ⊆ m' →
  (∀ L, filter (onLine L) (checkUnmatched ws m' file)
          `sublist_of` filter (onLine L) (checkUnmatched ws m file)) ∧
  checkUnmatched ws m' file ⊆+ checkUnmatched ws m file ∧
  (length (checkUnmatched ws m' file) ≤ length (checkUnmatched ws m file))%nat.
Proof.
  intros Hsub.
  assert (checkUnmatched ws m' file `sublist_of` checkUnmatched ws m file) as Hs.
  { unfold checkUnmatched. induction (map_to_list ws) as [|e es IH]; cbn; [done|].
    apply sublist_app; [by apply unmatchedFrom_sublist | done]. }
  split; [|split].
  - intros L. rewrite !filter_onLine_checkUnmatched. by apply unmatchedFrom_sublist.
  - by apply sublist_submseteq.
  - by apply sublist_length.
Qed.

Lemma consuming_more_reports_less_scenarioD :
  checkUnmatched scenarioD_ws {[ (5, 0%nat) ]} fixtureName
    ⊆+ checkUnmatched scenarioD_ws ∅ fixtureName.
Proof.
  refine (proj1 (proj2
    (consuming_more_reports_less scenarioD_ws ∅ {[ (5, 0%nat) ]} fixtureName _))).
  apply empty_subseteq.
Defined.

(** ** Matching is scoped to the line *)

Lemma checkWarnWith_other_line fnd fset file ws m d L :
  lookupSound fnd → warnLine fset d ≠ L →
  agreeOn L m (checkWarnWith fnd fset file ws m d).1 ∧
  filter (onLine L) (checkWarnWith fnd fset file ws m d).2 = [].
Proof.
  intros Hsound Hne. unfold checkWarnWith. fold (warnLine fset d).
  destruct (fnd ws (warnLine fset d) (linter.Text d)) as [w|] eqn:Hf; cbn [fst snd].
  - destruct (Hsound _ _ _ _ Hf) as [Hw _]. split.
    + intros i. rewrite elem_of_union, elem_of_singleton. split; [tauto|].
      intros [?|Heq]; [done|]. subst w. cbn in Hw. congruence.
    + case_decide; [|done]. rewrite filter_cons_False; [done|].
      unfold onLine. cbn. congruence.
  - split; [done|]. rewrite filter_cons_False; [done|]. unfold onLine. cbn. congruence.
Qed.

Lemma checkWarnWith_this_line fnd fset file (ws1 ws2 : warnings) m1 m2 d L :
  lookupSound fnd → lookupLocal fnd → ws1 !! L = ws2 !! L →
  warnLine fset d = L → agreeOn L m1 m2 →
  agreeOn L (checkWarnWith fnd fset file ws1 m1 d).1 (checkWarnWith fnd fset file ws2 m2 d).1 ∧
  (checkWarnWith fnd fset file ws1 m1 d).2 = (checkWarnWith fnd fset file ws2 m2 d).2 ∧
  Forall (onLine L) (checkWarnWith fnd fset file ws1 m1 d).2.
Proof.
  intros Hsound Hlocal Hws HL Hag. unfold checkWarnWith. fold (warnLine fset d).
  rewrite HL, <-(Hlocal ws1 ws2 L (linter.Text d) Hws).
  destruct (fnd ws1 L (linter.Text d)) as [[l i]|] eqn:Hf; cbn [fst snd].
  - destruct (Hsound _ _ _ _ Hf) as [Hw _]. cbn in Hw. subst l.
    assert (deref ws1 (L, i) = deref ws2 (L, i)) as Hd.
    { unfold deref. cbn. by rewrite Hws. }
    rewrite Hd. split; [|split].
    + intros j. rewrite !elem_of_union. by rewrite (Hag j).
    + repeat case_decide; try done; exfalso; destruct (Hag i); auto.
    + case_decide; repeat constructor.
  - split; [done|]. split; [done|]. repeat constructor.
Qed.

Lemma checkWarnsWith_filter_line fnd fset file ws L warns :
  lookupSound fnd → lookupLocal fnd →
  ∀ m1 m2, agreeOn L m1 m2 →
  agreeOn L (checkWarnsWith fnd fset file ws m1 warns).1
            (checkWarnsWith fnd fset file ws m2 (filter (λ d, warnLine fset d = L) warns)).1 ∧
  filter (onLine L) (checkWarnsWith fnd fset file ws m1 warns).2 =
  (checkWarnsWith fnd fset file ws m2 (filter (λ d, warnLine fset d = L) warns)).2.
Proof.
  intros Hsound Hlocal.
  induction warns as [|d rest IH]; intros m1 m2 Hag; [done|].
  destruct (decide (warnLine fset d = L)) as [HL|HL].
  - rewrite filter_cons_True by done. rewrite !checkWarnsWith_cons. cbn [fst snd].
    destruct (checkWarnWith_this_line fnd fset file ws ws m1 m2 d L
                Hsound Hlocal eq_refl HL Hag) as (Hag' & Hlog & Hall).
    destruct (IH _ _ Hag') as [Hag'' Hlog'].
    split; [done|]. rewrite filter_app, Hlog', <-Hlog. f_equal.
    by apply filter_Forall_id.
  - rewrite filter_cons_False by done. rewrite checkWarnsWith_cons. cbn [fst snd].
    destruct (checkWarnWith_other_line fnd fset file ws m1 d L Hsound HL) as [Hag' Hlog].
    assert (agreeOn L (checkWarnWith fnd fset file ws m1 d).1 m2) as Hag2.
    { intros i. rewrite <-(Hag' i). apply Hag. }
    destruct (IH _ _ Hag2) as [Hag'' Hlog'].
    split; [done|]. by rewrite filter_app, Hlog, Hlog'.
Qed.

Lemma checkWarnsWith_same_line fnd fset file (ws1 ws2 : warnings) L ds :
  lookupSound fnd → lookupLocal fnd → ws1 !! L = ws2 !! L →
  Forall (λ d, warnLine fset d = L) ds →
  ∀ m1 m2, agreeOn L m1 m2 →
  agreeOn L (checkWarnsWith fnd fset file ws1 m1 ds).1
            (checkWarnsWith fnd fset file ws2 m2 ds).1 ∧
  (checkWarnsWith fnd fset file ws1 m1 ds).2 = (checkWarnsWith fnd fset file ws2 m2 ds).2.
Proof.
  intros Hsound Hlocal Hws Hds.
  induction Hds as [|d ds HL _ IH]; intros m1 m2 Hag; [done|].
  rewrite !checkWarnsWith_cons. cbn [fst snd].
  destruct (checkWarnWith_this_line fnd fset file ws1 ws2 m1 m2 d L
              Hsound Hlocal Hws HL Hag) as (Hag' & Hlog & _).
  destruct (IH _ _ Hag') as [Hag'' Hlog'].
  split; [done|]. by rewrite Hlog, Hlog'.
Qed.

(** X6. Matching is scoped to the line: what is reported for a line
    depends on the expectations of that line and on the diagnostics of that
    line only. Two fixtures that agree on the line, run with diagnostics
    that agree on the line, get the same failures for it. *)
Theorem failures_depend_on_line_only fnd fset file (ws1 ws2 : warnings) warns1 warns2 L :
  lookupSound fnd → lookupLocal fnd →
  ws1 !! L = ws2 !! L →
  filter (λ d, warnLine fset d = L) warns1 = filter (λ d, warnLine fset d = L) warns2 →
  filter (onLine L) (matchFileWith fnd fset file ws1 warns1) =
  filter (onLine L) (matchFileWith fnd fset file ws2 warns2).
Proof.
  intros Hsound Hlocal Hws Hds.
  assert (agreeOn L ∅ ∅) as Hag0 by done.
  rewrite !matchFileWith_eq, !filter_app, !filter_onLine_checkUnmatched.
  destruct (checkWarnsWith_filter_line fnd fset file ws1 L warns1 Hsound Hlocal ∅ ∅ Hag0)
    as [Hag1 Hlog1].
  destruct (checkWarnsWith_filter_line fnd fset file ws2 L warns2 Hsound Hlocal ∅ ∅ Hag0)
    as [Hag2 Hlog2].
  assert (Forall (λ d, warnLine fset d = L) (filter (λ d, warnLine fset d = L) warns1)) as Hall.
  { apply Forall_forall. by intros d [HL _]%list_elem_of_filter. }
  destruct (checkWarnsWith_same_line fnd fset file ws1 ws2 L _
              Hsound Hlocal Hws Hall ∅ ∅ Hag0) as [Hag12 Hlog12].
  rewrite <-Hds in Hag2, Hlog2.
  rewrite Hlog1, Hlog2, Hlog12, Hws. f_equal.
  apply unmatchedFrom_agree.
  intros i. rewrite (Hag1 i), (Hag12 i), <-(Hag2 i). done.
Qed.

Lemma find_local : lookupLocal find.
Proof. intros ws1 ws2 line text Hws. unfold find. by rewrite Hws. Qed.

Lemma failures_depend_on_line_only_scenarioC :
  filter (onLine 5) (matchFileWith find lineFset fixtureName scenarioA_ws [warn5; warn9]) =
  filter (onLine 5)
    (matchFileWith find lineFset fixtureName (<[ 9 := [unusedVar] ]> scenarioA_ws) [warn5]).
Proof.
  refine (failures_depend_on_line_only find lineFset fixtureName
            scenarioA_ws (<[ 9 := [unusedVar] ]> scenarioA_ws) [warn5; warn9] [warn5] 5
            find_sound find_local _ _).
  - vm_compute. reflexivity.
  - vm_compute. reflexivity.
Defined.

(** ** Trees without directives *)

Lemma stripComment_fixed c :
  stripComment c = c ↔ String.prefix "/// " (ast.Text c) = false.
Proof.
  split; [|apply stripComment_other].
  intros Heq. rewrite <-Heq. apply stripComment_no_prefix.
Qed.

(** X7. Stripping leaves a tree as it is exactly when none of the listed
    comments carries the directive prefix; a file without annotations is
    handed to the checker unchanged. *)
Theorem stripDirectives_fixed_iff_directiveFree {Decl} (f : ast.File Decl) :
  stripDirectives f = f ↔ directiveFree f.
Proof.
  split.
  - intros Heq cg c x Hcg Hc Hx.
    assert (ast.heap (stripDirectives f) !! c = Some x) as Hs by (by rewrite Heq).
    rewrite lookup_stripDirectives, Hx in Hs.
    rewrite decide_True in Hs by (apply elem_of_commentLocs; eauto).
    cbn in Hs. injection Hs as Hs. by apply stripComment_fixed.
  - intros Hfree.
    assert (ast.heap (stripDirectives f) = ast.heap f) as Hh.
    { apply map_eq. intros l. rewrite lookup_stripDirectives.
      case_decide as Hin; [|done].
      apply elem_of_commentLocs in Hin as (cg & Hcg & Hl).
      destruct (ast.heap f !! l) as [x|] eqn:Hx; [|done]. cbn. f_equal.
      apply stripComment_fixed. by eapply Hfree. }
    unfold stripDirectives in *. cbn [ast.heap] in Hh. rewrite Hh. by destruct f.
Qed.

Lemma stripDirectives_fixed_plain :
  stripDirectives (annotated "///no space") = annotated "///no space".
Proof.
  apply (proj2 (stripDirectives_fixed_iff_directiveFree (annotated "///no space"))).
  intros cg c x Hcg Hc Hx.
  apply list_elem_of_singleton in Hcg as ->.
  apply list_elem_of_singleton in Hc as ->.
  cbn in Hx. rewrite lookup_singleton_eq in Hx. by injection Hx as <-.
Defined.

(** ** What the loader selects *)

Lemma visitUnit_variants {Decl} (u : pkgload.Unit Decl) p :
  p ∈ visitUnit [] u →
  p = pkgload.Base u ∨ pkgload.Test u = Some p ∨ pkgload.ExternalTest u = Some p.
Proof.
  unfold visitUnit.
  destruct (pkgload.ExternalTest u) as [x|], (pkgload.Test u) as [t|]; cbn;
    intros H; repeat (apply elem_of_cons in H as [->|H]);
    try (by apply elem_of_nil in H); auto.
Qed.

Lemma visitUnit_length {Decl} (u : pkgload.Unit Decl) :
  (1 ≤ length (visitUnit [] u) ≤ 2)%nat.
Proof.
  unfold visitUnit.
  destruct (pkgload.ExternalTest u), (pkgload.Test u); cbn; lia.
Qed.

Lemma length_join_bounds {A B} (g : A → list B) (l : list A) (lo hi : nat) :
  (∀ x, lo ≤ length (g x) ≤ hi)%nat →
  (lo * length l ≤ length (mjoin (g <$> l)) ≤ hi * length l)%nat.
Proof.
  intros Hg. induction l as [|a l IH].
  - cbn. rewrite !Nat.mul_0_r. lia.
  - rewrite fmap_cons. change (mjoin (g a :: (g <$> l))) with (g a ++ mjoin (g <$> l)).
    rewrite length_app. cbn [length].
    rewrite !Nat.mul_succ_r. specialize (Hg a). lia.
Qed.

(** X8. Every package that the loader returns is the base, the
    test-augmented or the external-test variant of a unit, so the test
    binary of a unit is returned only if it is also one of these; and
    the loader returns at least one and at most two packages per unit. *)
Theorem loadPackages_selection {Decl} (E : Env Decl) patterns fset result :
  loadPackages E patterns = Some (fset, result) →
  ∃ pkgs, Load E patterns = Some (fset, pkgs) ∧
    (length (VisitUnits E pkgs) ≤ length result ≤ 2 * length (VisitUnits E pkgs))%nat ∧
    ∀ p, p ∈ result →
      ∃ u, u ∈ VisitUnits E pkgs ∧
        (p = pkgload.Base u ∨ pkgload.Test u = Some p ∨ pkgload.ExternalTest u = Some p).
Proof.
  unfold loadPackages. destruct (Load E patterns) as [[fs pkgs]|]; [|done].
  intros [= -> <-]. exists pkgs. split; [done|].
  rewrite foldl_visitUnit. cbn [app]. split.
  - pose proof (length_join_bounds (visitUnit []) (VisitUnits E pkgs) 1 2
                  visitUnit_length). lia.
  - intros p (l & Hp & (u & -> & Hu)%list_elem_of_fmap)%list_elem_of_join.
    exists u. split; [done|]. by apply visitUnit_variants.
Qed.

Lemma loadPackages_selection_sanity :
  ∃ pkgs, Load flakyEnv [sanityPkgPath] = Some (lineFset, pkgs) ∧
    (length (VisitUnits flakyEnv pkgs) ≤ length [sanityXTest; sanityBase]
       ≤ 2 * length (VisitUnits flakyEnv pkgs))%nat ∧
    ∀ p, p ∈ [sanityXTest; sanityBase] →
      ∃ u, u ∈ VisitUnits flakyEnv pkgs ∧
        (p = pkgload.Base u ∨ pkgload.Test u = Some p ∨ pkgload.ExternalTest u = Some p).
Proof.
  refine (loadPackages_selection flakyEnv [sanityPkgPath] lineFset
            [sanityXTest; sanityBase] _).
  reflexivity.
Defined.

(** ** Fixture files that cannot be read *)

(** X9. When the fixture file of a tree cannot be opened, or its
    expectations cannot be read, [checkFile] stops the test with that one
    failure, and the checker is not run: the outcome is the same whatever
    the checker would do. *)
Theorem checkFile_unreadable {Decl} (E : Env Decl) info fset pkg f :
  Open E (testFilenameOf E info fset f) ≫= newWarnings E = None →
  ∀ chk,
    checkFile (withCheck E chk) info fset pkg f =
    testing.mkT testing.FailNow
      [match Open E (testFilenameOf E info fset f) with
       | Some _ => testing.NewWarningsError (testFilenameOf E info fset f)
       | None => testing.ReadFile (testFilenameOf E info fset f)
       end].
Proof.
  intros Hnone chk. rewrite checkFile_eq.
  change (testFilenameOf (withCheck E chk) info fset f) with (testFilenameOf E info fset f).
  cbn [withCheck Open newWarnings].
  destruct (Open E (testFilenameOf E info fset f)) as [rc|]; [|done].
  cbn in Hnone. by rewrite Hnone.
Qed.

Lemma checkFile_unreadable_emptyDisk :
  checkFile (withCheck emptyDiskEnv flakyCheck) flaky twoFileFset sanityBase (plainFile 1) =
  testing.mkT testing.FailNow [testing.ReadFile "testdata/flaky/a.go"].
Proof.
  refine (checkFile_unreadable emptyDiskEnv flaky twoFileFset sanityBase (plainFile 1) _
            flakyCheck).
  reflexivity.
Defined.

(** ** The loops of a fixture test *)

Lemma bind_assoc {A B C} (m : testing.T A) (k : A → testing.T B) (h : B → testing.T C) :
  testing.bind (testing.bind m k) h = testing.bind m (λ a, testing.bind (k a) h).
Proof.
  unfold testing.bind. destruct (testing.status m) as [a| |]; cbn; [|done|done].
  destruct (testing.status (k a)) as [b| |]; cbn; by rewrite ?app_assoc.
Qed.

Lemma bind_ret_l {A B} (a : A) (k : A → testing.T B) :
  testing.bind (testing.ret a) k = k a.
Proof. unfold testing.bind. cbn. by destruct (k a). Qed.

Lemma forEach_app {A} (body : A → testing.T unit) xs ys :
  testing.forEach body (xs ++ ys) =
  testing.bind (testing.forEach body xs) (λ _, testing.forEach body ys).
Proof.
  induction xs as [|x xs IH]; cbn [app testing.forEach].
  - by rewrite bind_ret_l.
  - rewrite bind_assoc. f_equal. by rewrite IH.
Qed.

Lemma forEach_fmap {A B} (g : A → B) (body : B → testing.T unit) xs :
  testing.forEach body (g <$> xs) = testing.forEach (λ x, body (g x)) xs.
Proof.
  induction xs as [|x xs IH]; [done|]. rewrite fmap_cons. cbn [testing.forEach].
  by rewrite IH.
Qed.

(** The two nested loops of a fixture test visit the files of the units
    one after the other. *)
Lemma forEach_nested {Decl}
    (body : packages.Package Decl → ast.File Decl → testing.T unit) pkgs :
  testing.forEach (λ pkg, testing.forEach (body pkg) (packages.Syntax pkg)) pkgs =
  testing.forEach (λ pf, body pf.1 pf.2) (unitFiles pkgs).
Proof.
  unfold unitFiles. induction pkgs as [|pkg pkgs IH]; [done|].
  rewrite bind_cons, forEach_app, forEach_fmap. cbn [testing.forEach fst snd].
  by rewrite IH.
Qed.

Lemma fixtureTest_loaded {Decl} (E : Env Decl) info fset pkgs :
  loadPackages E ["./testdata/" +:+ linter.Name info] = Some (fset, pkgs) →
  fixtureTest E info =
  testing.forEach (λ pf, checkFile E info fset pf.1 pf.2) (unitFiles pkgs).
Proof.
  intros Hload. unfold fixtureTest, newPackages, mbind, T_bind. rewrite Hload.
  rewrite bind_ret_l. cbn [fst snd].
  by rewrite <-(forEach_nested (λ pkg f, checkFile E info fset pkg f)).
Qed.

(** X10. A fixture test ends at the first file whose check does not return,
    because the test is stopped or because the checker panics: the log is
    the reports of the files before it followed by the log of that file,
    and the files after it are not checked. *)
Theorem fixtureTest_ends_at_first_failure {Decl} (E : Env Decl) info fset pkgs before pf after :
  loadPackages E ["./testdata/" +:+ linter.Name info] = Some (fset, pkgs) →
  unitFiles pkgs = before ++ pf :: after →
  (∀ x, x ∈ before → testing.status (checkFile E info fset x.1 x.2) = testing.Ret tt) →
  testing.status (checkFile E info fset pf.1 pf.2) ≠ testing.Ret tt →
  fixtureTest E info =
  testing.mkT (testing.status (checkFile E info fset pf.1 pf.2))
    (mjoin ((λ x, testing.log (checkFile E info fset x.1 x.2)) <$> before) ++
     testing.log (checkFile E info fset pf.1 pf.2)).
Proof.
  intros Hload Hfiles Hbefore Hpf.
  rewrite (fixtureTest_loaded E info fset pkgs Hload), Hfiles, forEach_app.
  rewrite (forEach_returns _ before Hbefore). cbn [testing.forEach].
  unfold testing.bind at 1. cbn [testing.status testing.log].
  unfold testing.bind.
  destruct (testing.status (checkFile E info fset pf.1 pf.2)) as [[]| |]; done.
Qed.

Lemma fixtureTest_ends_at_first_failure_emptyDisk :
  fixtureTest emptyDiskEnv flaky =
  testing.mkT
    (testing.status (checkFile emptyDiskEnv flaky twoFileFset sanityXTest (plainFile 2)))
    (mjoin ((λ x, testing.log (checkFile emptyDiskEnv flaky twoFileFset x.1 x.2)) <$> []) ++
     testing.log (checkFile emptyDiskEnv flaky twoFileFset sanityXTest (plainFile 2))).
Proof.
  refine (fixtureTest_ends_at_first_failure emptyDiskEnv flaky twoFileFset
            [sanityXTest; sanityBase] [] (sanityXTest, plainFile 2)
            [(sanityBase, plainFile 1)] _ _ _ _).
  - reflexivity.
  - reflexivity.
  - intros x Hx. by apply elem_of_nil in Hx.
  - vm_compute. discriminate.
Defined.

Example emptyDisk_run :
  fixtureTest emptyDiskEnv flaky =
  testing.mkT testing.FailNow [testing.ReadFile "testdata/flaky/b.go"].
Proof. vm_compute. reflexivity. Qed.

(** X11. When the fixture package of a checker does not load, its fixture
    test is stopped with that one failure, which names the package
    [./testdata/] followed by the name of the checker; no file is opened and
    no checker is run, whatever the disk and the checkers are. *)
Theorem fixtureTest_load_failure {Decl} (E : Env Decl) info :
  Load E ["./testdata/" +:+ linter.Name info] = None →
  ∀ regs units chk disk parse,
    fixtureTest (mkEnv regs (Load E) units chk disk parse (filepath_Base E) (filepath_Join E))
      info =
    testing.mkT testing.FailNow [testing.LoadPackage ("./testdata/" +:+ linter.Name info)].
Proof.
  intros Hload regs units chk disk parse.
  unfold fixtureTest, newPackages, loadPackages, mbind, T_bind, testing.bind.
  cbn [Load]. by rewrite Hload.
Qed.

Lemma fixtureTest_load_failure_broken :
  fixtureTest (mkEnv [flaky] (Load brokenEnv) (λ _, []) flakyCheck (λ _, None) (λ _, None)
                 (filepath_Base brokenEnv) (filepath_Join brokenEnv)) flaky =
  testing.mkT testing.FailNow [testing.LoadPackage ("./testdata/" +:+ linter.Name flaky)].
Proof.
  refine (fixtureTest_load_failure brokenEnv flaky _
            [flaky] (λ _, []) flakyCheck (λ _, None) (λ _, None)).
  reflexivity.
Defined.

(** ** The sanity phase, checker by checker *)

Lemma sanitySubtest_from_nil {Decl} (E : Env Decl) info sane :
  (sanitySubtest E info sane).1 = sane ++ (sanitySubtest E info []).1 ∧
  (sanitySubtest E info sane).2 = (sanitySubtest E info []).2.
Proof.
  destruct (loadPackages E [sanityPkgPath]) as [[fset pkgs]|] eqn:Hload.
  - rewrite !(sanitySubtest_loaded E info fset pkgs _ Hload).
    by destruct (firstPanic E info fset pkgs).
  - unfold sanitySubtest, newPackages. rewrite Hload. cbn. by rewrite app_nil_r.
Qed.

Lemma sanityPhase_foldl {Decl} (E : Env Decl) regs : ∀ acc,
  foldl (λ acc info,
           let '(sane, r) := sanitySubtest E info acc.1 in
           (sane, acc.2 ++ [(info, r)])) acc regs =
  (acc.1 ++ mjoin ((λ info, (sanitySubtest E info []).1) <$> regs),
   acc.2 ++ ((λ info, (info, (sanitySubtest E info []).2)) <$> regs)).
Proof.
  induction regs as [|info regs IH]; intros [sane reps].
  - cbn. by rewrite !app_nil_r.
  - cbn [foldl fst snd]. destruct (sanitySubtest_from_nil E info sane) as [H1 H2].
    destruct (sanitySubtest E info sane) as [sane' r]. cbn [fst snd] in *. subst.
    rewrite IH. cbn [fst snd]. rewrite !fmap_cons.
    change (mjoin (?x :: ?l)) with (x ++ mjoin l).
    by rewrite <-!app_assoc.
Qed.

Lemma sanitySubtest_status {Decl} (E : Env Decl) info sane :
  testing.status (sanitySubtest E info sane).2 ≠ testing.Panic.
Proof.
  destruct (loadPackages E [sanityPkgPath]) as [[fset pkgs]|] eqn:Hload.
  - rewrite (sanitySubtest_loaded E info fset pkgs _ Hload).
    by destruct (firstPanic E info fset pkgs).
  - unfold sanitySubtest, newPackages. by rewrite Hload.
Qed.

(** X12. The sanity phase treats the checkers one by one: the sane list is
    made of the admissions of the registered checkers, each as if it were
    run alone, in the order of the registry; every registered checker gets
    one sanity subtest; and no sanity subtest ends in a panic, so that a
    checker that panics does not keep the others from being run. *)
Theorem sanity_isolates_checkers {Decl} (E : Env Decl) :
  saneCheckersList E = mjoin ((λ info, (sanitySubtest E info []).1) <$> GetCheckersInfo E) ∧
  (sanityPhase E).2 = (λ info, (info, (sanitySubtest E info []).2)) <$> GetCheckersInfo E ∧
  ∀ info sane, testing.status (sanitySubtest E info sane).2 ≠ testing.Panic.
Proof.
  unfold saneCheckersList, sanityPhase. rewrite sanityPhase_foldl. cbn [fst snd app].
  split; [done|]. split; [done|]. apply sanitySubtest_status.
Qed.

(** X13. The sane list holds registered checkers only. *)
Theorem sane_checkers_are_registered {Decl} (E : Env Decl) info :
  info ∈ saneCheckersList E → info ∈ GetCheckersInfo E.
Proof.
  unfold saneCheckersList, sanityPhase. rewrite sanityPhase_foldl. cbn [fst snd app].
  intros (l & Hin & (i & -> & Hi)%list_elem_of_fmap)%list_elem_of_join.
  destruct (sanitySubtest_appends E i) as [n Hn]. rewrite (Hn []) in Hin.
  cbn [app] in Hin. by apply elem_of_replicate in Hin as [-> _].
Qed.

Lemma sane_checkers_are_registered_flaky : flaky ∈ GetCheckersInfo flakyEnv.
Proof.
  refine (sane_checkers_are_registered flakyEnv flaky _).
  change (saneCheckersList flakyEnv) with [flaky]. apply list_elem_of_here.
Defined.

(** X14. When the sanity fixture does not load, every sanity subtest is
    stopped with the load failure, no checker is admitted, and
    [TestCheckers] runs no fixture test at all. *)
Theorem sanity_load_failure {Decl} (E : Env Decl) :
  loadPackages E [sanityPkgPath] = None →
  saneCheckersList E = [] ∧
  (sanityPhase E).2 =
    (λ info, (info, testing.mkT testing.FailNow [testing.LoadPackage sanityPkgPath]))
      <$> GetCheckersInfo E ∧
  TestCheckers E = [].
Proof.
  intros Hload.
  assert (∀ info, sanitySubtest E info [] =
            ([], testing.mkT testing.FailNow [testing.LoadPackage sanityPkgPath])) as Hsub.
  { intros info. unfold sanitySubtest, newPackages. by rewrite Hload. }
  assert (saneCheckersList E = []) as Hsane.
  { unfold saneCheckersList, sanityPhase. rewrite sanityPhase_foldl. cbn [fst snd app].
    induction (GetCheckersInfo E) as [|i regs IH]; [done|].
    rewrite fmap_cons, Hsub. cbn. exact IH. }
  split; [done|]. split.
  - unfold sanityPhase. rewrite sanityPhase_foldl. cbn [fst snd app].
    apply list_fmap_ext. intros _ info _. by rewrite Hsub.
  - unfold TestCheckers. by rewrite Hsane.
Qed.

Lemma sanity_load_failure_broken : TestCheckers brokenEnv = [].
Proof.
  refine (proj2 (proj2 (sanity_load_failure brokenEnv _))).
  reflexivity.
Defined.

(** ** Panics in the sanity phase *)

Lemma sanityFiles_true {Decl} (E : Env Decl) info fset pkg files :
  sanityFiles E info fset pkg files = true ↔
  ∃ f, f ∈ files ∧ Check E info fset pkg (getFilename E fset f) f = linter.Panics.
Proof.
  induction files as [|f rest IH]; cbn [sanityFiles].
  - split; [done|]. intros (f & Hf & _). by apply elem_of_nil in Hf.
  - destruct (Check E info fset pkg (getFilename E fset f) f) eqn:Hc.
    + rewrite IH. split.
      * intros (g & Hg & Hp). exists g. split; [by apply list_elem_of_further | done].
      * intros (g & [->|Hg]%elem_of_cons & Hp); [congruence | eauto].
    + split; [|done]. intros _. exists f. split; [apply list_elem_of_here | done].
Qed.

Lemma firstPanic_app {Decl} (E : Env Decl) info fset before pkg after :
  (∀ p f, p ∈ before → f ∈ packages.Syntax p →
     Check E info fset p (getFilename E fset f) f ≠ linter.Panics) →
  (∃ f, f ∈ packages.Syntax pkg ∧
     Check E info fset pkg (getFilename E fset f) f = linter.Panics) →
  firstPanic E info fset (before ++ pkg :: after) = Some (length before).
Proof.
  intros Hbefore Hpkg. induction before as [|p before IH]; cbn [app firstPanic length].
  - apply sanityFiles_true in Hpkg. by rewrite Hpkg.
  - rewrite sanityFiles_false.
    + rewrite IH; [done|]. intros q f Hq. apply Hbefore. by apply list_elem_of_further.
    + intros f. apply Hbefore. apply list_elem_of_here.
Qed.

(** X15. When a checker panics in a unit of the sanity fixture after
    completing the units before it, its subtest logs one unexpected panic
    and returns, the checker is appended once for each unit completed
    before the panic, and the units after the panic are not checked: the
    outcome does not depend on them. *)
Theorem sanity_panic_after_units {Decl} (E : Env Decl) info fset before pkg after sane :
  loadPackages E [sanityPkgPath] = Some (fset, before ++ pkg :: after) →
  (∀ p f, p ∈ before → f ∈ packages.Syntax p →
     Check E info fset p (getFilename E fset f) f ≠ linter.Panics) →
  (∃ f, f ∈ packages.Syntax pkg ∧
     Check E info fset pkg (getFilename E fset f) f = linter.Panics) →
  sanitySubtest E info sane =
  (sane ++ replicate (length before) info,
   testing.mkT (testing.Ret tt) [testing.UnexpectedPanic]).
Proof.
  intros Hload Hbefore Hpkg.
  rewrite (sanitySubtest_loaded E info fset _ sane Hload).
  by rewrite (firstPanic_app E info fset before pkg after Hbefore Hpkg).
Qed.

Lemma sanity_panic_after_units_flaky :
  sanitySubtest flakyEnv flaky [] =
  ([] ++ replicate (length [sanityXTest]) flaky,
   testing.mkT (testing.Ret tt) [testing.UnexpectedPanic]).
Proof.
  refine (sanity_panic_after_units flakyEnv flaky lineFset [sanityXTest] sanityBase [] [] _ _ _).
  - reflexivity.
  - intros p f Hp _. apply list_elem_of_singleton in Hp as ->. cbn. discriminate.
  - exists (plainFile 1). split; [apply list_elem_of_here | reflexivity].
Defined.

(** ** The sanity phase looks at panics only *)

Lemma sanityFiles_withCheck {Decl} (E : Env Decl) chk info fset pkg files :
  (∀ i fs p name f, chk i fs p name f = linter.Panics ↔ Check E i fs p name f = linter.Panics) →
  sanityFiles (withCheck E chk) info fset pkg files = sanityFiles E info fset pkg files.
Proof.
  intros Hchk. induction files as [|f rest IH]; [done|]. cbn [sanityFiles].
  change (getFilename (withCheck E chk) fset f) with (getFilename E fset f).
  cbn [withCheck Check]. specialize (Hchk info fset pkg (getFilename E fset f) f).
  destruct (chk info fset pkg (getFilename E fset f) f) eqn:H1,
           (Check E info fset pkg (getFilename E fset f) f) eqn:H2; try done.
  - by destruct Hchk as [_ Hc]; specialize (Hc eq_refl).
  - by destruct Hchk as [Hc _]; specialize (Hc eq_refl).
Qed.

Lemma sanityUnits_withCheck {Decl} (E : Env Decl) chk info fset pkgs :
  (∀ i fs p name f, chk i fs p name f = linter.Panics ↔ Check E i fs p name f = linter.Panics) →
  ∀ defers s,
  sanityUnits (withCheck E chk) info fset pkgs defers s = sanityUnits E info fset pkgs defers s.
Proof.
  intros Hchk. induction pkgs as [|pkg rest IH]; intros defers s; [done|].
  cbn [sanityUnits]. rewrite (sanityFiles_withCheck E chk info fset pkg _ Hchk).
  by rewrite IH.
Qed.

(** X16. The sanity phase looks at panics only, not at diagnostics: two
    sets of checkers that panic on the same files give the same sane list
    and the same sanity reports, whatever diagnostics they return. *)
Theorem sanity_ignores_diagnostics {Decl} (E : Env Decl) chk :
  (∀ i fs p name f, chk i fs p name f = linter.Panics ↔ Check E i fs p name f = linter.Panics) →
  sanityPhase (withCheck E chk) = sanityPhase E.
Proof.
  intros Hchk. unfold sanityPhase. cbn [withCheck GetCheckersInfo].
  assert (∀ info sane, sanitySubtest (withCheck E chk) info sane = sanitySubtest E info sane)
    as Hsub.
  { intros info sane. unfold sanitySubtest.
    change (newPackages (withCheck E chk) sanityPkgPath) with (newPackages E sanityPkgPath).
    destruct (testing.status (newPackages E sanityPkgPath)) as [[fset pkgs]| |]; [|done|done].
    by rewrite (sanityUnits_withCheck E chk info fset pkgs Hchk). }
  generalize (@nil linter.CheckerInfo, @nil (linter.CheckerInfo * testing.T unit)).
  induction (GetCheckersInfo E) as [|info regs IH]; intros acc; [done|].
  cbn [foldl]. rewrite Hsub. apply IH.
Qed.

Lemma sanity_ignores_diagnostics_noisy :
  sanityPhase (withCheck calmEnv (λ _ _ _ _ _, linter.Returns [warn9])) = sanityPhase calmEnv.
Proof.
  refine (sanity_ignores_diagnostics calmEnv (λ _ _ _ _ _, linter.Returns [warn9]) _).
  intros i fs p name f. cbn. split; discriminate.
Defined.

(** ** A panic in a fixture test *)

Lemma runSubtests_panic {A} (before : list (A * testing.T unit)) t after :
  (∀ x, x ∈ before → testing.status x.2 ≠ testing.Panic) →
  testing.status t.2 = testing.Panic →
  runSubtests (before ++ t :: after) = before ++ [t].
Proof.
  intros Hbefore Ht. induction before as [|[a r] before IH]; cbn [app runSubtests].
  - destruct t as [a r]. cbn in Ht. by rewrite Ht.
  - assert (testing.status r ≠ testing.Panic) as Hr.
    { apply (Hbefore (a, r)). apply list_elem_of_here. }
    rewrite IH by (intros x Hx; apply Hbefore; by apply list_elem_of_further).
    by destruct (testing.status r).
Qed.

(** X17. [TestCheckers] starts the fixture tests in the order of the sane
    list. A test that is stopped by a load-class failure does not keep the
    later ones from running: when no test panics, all of them run. After
    the first test that panics no further test is run. *)
Theorem TestCheckers_runs_until_panic {Decl} (E : Env Decl) :
  ((∀ t, t ∈ scheduled E → testing.status t.2 ≠ testing.Panic) →
   TestCheckers E = scheduled E) ∧
  (∀ before t after,
     scheduled E = before ++ t :: after →
     (∀ x, x ∈ before → testing.status x.2 ≠ testing.Panic) →
     testing.status t.2 = testing.Panic →
     TestCheckers E = before ++ [t]).
Proof.
  unfold TestCheckers. fold (scheduled E). split.
  - apply runSubtests_no_panic.
  - intros before t after -> Hbefore Ht. by apply runSubtests_panic.
Qed.

Example twoCheckers_sane :
  saneCheckersList twoCheckersEnv = [flaky; steady; steady].
Proof. vm_compute. reflexivity. Qed.

Lemma TestCheckers_runs_until_panic_twoCheckers :
  TestCheckers twoCheckersEnv = [] ++ [(flaky, fixtureTest twoCheckersEnv flaky)].
Proof.
  refine (proj2 (TestCheckers_runs_until_panic twoCheckersEnv)
            [] (flaky, fixtureTest twoCheckersEnv flaky)
            [(steady, fixtureTest twoCheckersEnv steady);
             (steady, fixtureTest twoCheckersEnv steady)] _ _ _).
  - reflexivity.
  - intros x Hx. by apply elem_of_nil in Hx.
  - vm_compute. reflexivity.
Defined.

(** ** Duplicate matches *)

(** X18. A diagnostic that finds an expectation is reported as a duplicate
    match exactly when the expectation was consumed before the loop or an
    earlier diagnostic of the run found the same expectation; otherwise
    it is not reported. In both cases the diagnostics after it are
    handled as well. *)
Theorem duplicate_iff_found_before fnd fset file ws m pre d post w :
  fnd ws (warnLine fset d) (linter.Text d) = Some w →
  (checkWarnsWith fnd fset file ws m (pre ++ d :: post)).2 =
  (checkWarnsWith fnd fset file ws m pre).2 ++
  (if decide (w ∈ m ∨ w ∈ found fnd fset ws pre)
   then [testing.MultipleMatches file (warnLine fset d) (deref ws w)]
   else []) ++
  (checkWarnsWith fnd fset file ws
     ((checkWarnsWith fnd fset file ws m pre).1 ∪ {[w]}) post).2.
Proof.
  intros Hf. rewrite checkWarnsWith_app.
  pose proof (checkWarnsWith_matched fnd fset file ws pre m) as Hm.
  destruct (checkWarnsWith fnd fset file ws m pre) as [m1 l1]. cbn [fst snd] in *.
  rewrite checkWarnsWith_cons. cbn [fst snd].
  unfold checkWarnWith. fold (warnLine fset d). rewrite Hf. cbn [fst snd].
  f_equal. f_equal.
  assert (w ∈ m1 ↔ w ∈ m ∨ w ∈ found fnd fset ws pre) as Hiff.
  { by rewrite Hm, elem_of_union, elem_of_list_to_set. }
  apply (decide_ext _ _ _ _ Hiff).
Qed.

Lemma duplicate_iff_found_before_scenarioD :
  (checkWarnsWith find lineFset fixtureName scenarioD_ws ∅ ([warn5] ++ warn5 :: [])).2 =
  (checkWarnsWith find lineFset fixtureName scenarioD_ws ∅ [warn5]).2 ++
  (if decide ((5, 0%nat) ∈ (∅ : gset ptr) ∨ (5, 0%nat) ∈ found find lineFset scenarioD_ws [warn5])
   then [testing.MultipleMatches fixtureName (warnLine lineFset warn5)
           (deref scenarioD_ws (5, 0%nat))]
   else []) ++
  (checkWarnsWith find lineFset fixtureName scenarioD_ws
     ((checkWarnsWith find lineFset fixtureName scenarioD_ws ∅ [warn5]).1 ∪ {[(5, 0%nat)]})
     []).2.
Proof.
  refine (duplicate_iff_found_before find lineFset fixtureName scenarioD_ws ∅
            [warn5] warn5 [] (5, 0%nat) _).
  vm_compute. reflexivity.
Defined.

(** ** Fixtures without annotations, checkers without diagnostics *)

Lemma lookupSound_empty fnd line text :
  lookupSound fnd → fnd ∅ line text = None.
Proof.
  intros Hsound. destruct (fnd ∅ line text) as [w|] eqn:Hf; [|done].
  destruct (Hsound _ _ _ _ Hf) as [_ Hw]. by rewrite lookup_empty in Hw.
Qed.

(** X19. For a fixture file without annotations every diagnostic of the
    checker is reported as unexpected, in the order of the diagnostics,
    and nothing else is reported. *)
Theorem no_annotations_all_unexpected fnd fset file warns :
  lookupSound fnd →
  matchFileWith fnd fset file ∅ warns =
  (λ d, testing.UnexpectedWarn file (warnLine fset d) (linter.Text d)) <$> warns.
Proof.
  intros Hsound. rewrite matchFileWith_eq.
  assert (∀ m, checkWarnsWith fnd fset file ∅ m warns =
            (m, (λ d, testing.UnexpectedWarn file (warnLine fset d) (linter.Text d)) <$> warns))
    as Hloop.
  { induction warns as [|d rest IH]; intros m; [done|].
    rewrite checkWarnsWith_cons. unfold checkWarnWith. fold (warnLine fset d).
    rewrite (lookupSound_empty fnd _ _ Hsound). cbn [fst snd]. by rewrite IH. }
  rewrite Hloop. cbn [fst snd].
  unfold checkUnmatched. rewrite map_to_list_empty. cbn. by rewrite app_nil_r.
Qed.

Lemma no_annotations_all_unexpected_warn9 :
  matchFileWith find lineFset fixtureName ∅ [warn9; warn9] =
  (λ d, testing.UnexpectedWarn fixtureName (warnLine lineFset d) (linter.Text d))
    <$> [warn9; warn9].
Proof.
  refine (no_annotations_all_unexpected find lineFset fixtureName [warn9; warn9] _).
  exact find_sound.
Defined.

Lemma unmatchedFrom_empty (file : string) (line : Z) sl : ∀ i : nat,
  unmatchedFrom ∅ file line i sl = testing.Unmatched file line <$> sl.
Proof.
  induction sl as [|w rest IH]; intros i; [done|]. cbn [unmatchedFrom].
  rewrite decide_False by apply not_elem_of_empty. rewrite fmap_cons. cbn [app].
  by rewrite IH.
Qed.

(** X20. When the checker returns no diagnostic for a file, every
    expectation record of the file is reported as unmatched, one report
    per record: the report of every line is one failure for each record of
    the slice of the line, with the text of the record, in the order of the
    slice; and the report has as many entries as the index has records. *)
Theorem no_diagnostics_all_unmatched fnd fset file (ws : warnings) :
  (∀ L, filter (onLine L) (matchFileWith fnd fset file ws []) =
        testing.Unmatched file L <$> default [] (ws !! L)) ∧
  length (matchFileWith fnd fset file ws []) =
    sum_list (length <$> (map_to_list ws).*2).
Proof.
  assert (matchFileWith fnd fset file ws [] = checkUnmatched ws ∅ file) as Heq.
  { by rewrite matchFileWith_eq. }
  split.
  - intros L. rewrite Heq, filter_onLine_checkUnmatched. apply unmatchedFrom_empty.
  - rewrite Heq. unfold checkUnmatched.
    induction (map_to_list ws) as [|e es IH]; [done|].
    cbn [flat_map]. rewrite length_app, unmatchedFrom_empty, length_fmap, !fmap_cons.
    cbn [sum_list sum_list_with]. by rewrite IH.
Qed.

(** * The report of a file holds every discrepancy *)














(** * Annotations that are not line comments *)

